(** * Iliad account sensor: the fetch / parse / cache pipeline

    A shallow embedding of [custom_components/iliad_ita/sensor.py]:
    the two regular expressions of [parse_data] run on a backtracking
    matcher that follows CPython's [re] module, the BeautifulSoup tree is
    an inductive type with [find_all], [find] and [.text] over it, and
    the coordinator is a state-and-exception monad over the cached
    [data] dict, the logger and the requests that went out. *)

From Stdlib Require Import NArith ZArith Lia.
From stdpp Require Import base option list strings gmap.

Set Default Proof Using "Type*".

Open Scope N_scope.

(** ** Python strings

    A Python [str] is a sequence of Unicode code points. *)

Definition char := N.
Definition pystr := list char.

Definition ord (a : Ascii.ascii) : char := Ascii.N_of_ascii a.

(** ASCII literals of the source, as code points. *)
Definition py (lit : string) : pystr := ord <$> String.list_ascii_of_string lit.

(** The Unicode character database of the interpreter, outside ASCII:
    [str.isdecimal] (category Nd, what [\d] tests), [str.isspace]
    (what [\s] and [str.strip] test) and the simple lower-case mapping
    that [re.IGNORECASE] compares with. *)
Class Unicode := {
  unicode_isdecimal : char → bool;
  unicode_isspace : char → bool;
  unicode_tolower : char → char;
}.

Section Chars.
Context {U : Unicode}.

Definition is_ascii (c : char) : bool := c <? 128.

(** [\d] *)
Definition isdecimal (c : char) : bool :=
  if is_ascii c then (48 <=? c) && (c <=? 57) else unicode_isdecimal c.

(** [\s]: in ASCII, tab to carriage return, the four separators
    0x1c-0x1f and the space. *)
Definition isspace (c : char) : bool :=
  if is_ascii c
  then ((9 <=? c) && (c <=? 13)) || ((28 <=? c) && (c <=? 31)) || (c =? 32)
  else unicode_isspace c.

Definition tolower (c : char) : char :=
  if is_ascii c
  then (if (65 <=? c) && (c <=? 90) then c + 32 else c)
  else unicode_tolower c.

(** [str.replace(old, new)] for one-character [old] and [new]. *)
Definition replace (old new : char) (t : pystr) : pystr :=
  (λ c, if c =? old then new else c) <$> t.

(** [str.strip()] *)
Fixpoint lstrip (t : pystr) : pystr :=
  match t with
  | c :: t' => if isspace c then lstrip t' else t
  | [] => []
  end.

Definition rstrip (t : pystr) : pystr := reverse (lstrip (reverse t)).

Definition strip (t : pystr) : pystr := rstrip (lstrip t).
End Chars.

(** ** Regular expressions ([re])

    The parsed form of a pattern, and the matcher: leftmost match,
    alternatives tried in order, greedy repeats that give back one
    iteration at a time. *)
Module Re.

Inductive category := CATEGORY_DIGIT | CATEGORY_SPACE.

Inductive set_item :=
| ItemLiteral (c : char)
| ItemCategory (k : category).

Inductive regex :=
| Literal (c : char)
| In (items : list set_item)
| Seq (r1 r2 : regex)
| Branch (r1 r2 : regex)
| MaxRepeat (lo : nat) (hi : option nat) (r : regex)
| Group (i : nat) (r : regex)
| Empty.

(** A run of literal characters. *)
Fixpoint literal (t : pystr) : regex :=
  match t with
  | [] => Empty
  | c :: t' => Seq (Literal c) (literal t')
  end.

(** A compiled pattern: the expression and the [IGNORECASE] flag. *)
Record pattern := Pattern { expr : regex; ignorecase : bool }.

(** A match object: where it starts and ends in the subject, and
    the text of each group that took part. *)
Record Match := { start : nat; stop : nat; groups : gmap nat pystr }.

Section Matcher.
Context {U : Unicode}.
Variable flag_i : bool.

Definition in_category (k : category) (c : char) : bool :=
  match k with
  | CATEGORY_DIGIT => isdecimal c
  | CATEGORY_SPACE => isspace c
  end.

(** A literal letter under [IGNORECASE] matches every character
    with the same lower case. *)
Definition literal_matches (p c : char) : bool :=
  if flag_i then tolower c =? tolower p else c =? p.

(** A set without letters is compared as it is, also under
    [IGNORECASE]. *)
Definition item_matches (c : char) (it : set_item) : bool :=
  match it with
  | ItemLiteral p => c =? p
  | ItemCategory k => in_category k c
  end.

Definition below (n : nat) (hi : option nat) : bool :=
  match hi with
  | Some h => bool_decide (n < h)%nat
  | None => true
  end.

Definition result : Type := pystr * gmap nat pystr.
Definition cont : Type := pystr → gmap nat pystr → option result.

(** A greedy repeat of [body], [count] iterations done: one more
    iteration first, and leaving the loop (with at least [lo]
    iterations done) when that fails. An iteration has to consume a
    character, which every repeat of the two patterns below does, so
    that [length t] iterations are enough. *)
Fixpoint rep (body : pystr → gmap nat pystr → cont → option result)
    (lo : nat) (hi : option nat) (k : cont)
    (fuel count : nat) (t : pystr) (g : gmap nat pystr) : option result :=
  let leave := if bool_decide (lo ≤ count)%nat then k t g else None in
  match fuel with
  | O => leave
  | S fuel' =>
      if below count hi then
        match body t g (λ t' g',
                if bool_decide (length t' < length t)%nat
                then rep body lo hi k fuel' (S count) t' g' else None) with
        | Some res => Some res
        | None => leave
        end
      else leave
  end.

(** [run r t g k]: match [r] at the head of [t], then hand the rest
    of the subject and the groups to [k]; [None] makes the matcher
    backtrack. *)
Fixpoint run (r : regex) (t : pystr) (g : gmap nat pystr) (k : cont)
    {struct r} : option result :=
  match r with
  | Literal p =>
      match t with
      | c :: t' => if literal_matches p c then k t' g else None
      | [] => None
      end
  | In items =>
      match t with
      | c :: t' => if existsb (item_matches c) items then k t' g else None
      | [] => None
      end
  | Seq r1 r2 => run r1 t g (λ t' g', run r2 t' g' k)
  | Branch r1 r2 =>
      match run r1 t g k with
      | Some res => Some res
      | None => run r2 t g k
      end
  | MaxRepeat lo hi body => rep (run body) lo hi k (length t) O t g
  | Group i body =>
      run body t g (λ t' g',
        k t' (<[i := take (length t - length t') t]> g'))
  | Empty => k t g
  end.

(** [pattern.search]: the first position, from the left, where the
    expression matches. *)
Fixpoint search_from (r : regex) (pos : nat) (t : pystr) : option Match :=
  match run r t ∅ (λ t' g, Some (t', g)) with
  | Some (t', g) =>
      Some {| start := pos; stop := (pos + (length t - length t'))%nat;
              groups := g |}
  | None =>
      match t with
      | [] => None
      | _ :: t' => search_from r (S pos) t'
      end
  end.
End Matcher.

(** The words of an expression, apart from the order in which the
    matcher tries them. *)
Section Language.
Context {U : Unicode}.
Variable flag_i : bool.

Definition within (hi : option nat) (n : nat) : Prop :=
  match hi with
  | Some h => (n ≤ h)%nat
  | None => True
  end.

Fixpoint lang (r : regex) (w : pystr) : Prop :=
  match r with
  | Literal p => ∃ c, w = [c] ∧ literal_matches flag_i p c = true
  | In items => ∃ c, w = [c] ∧ existsb (item_matches c) items = true
  | Seq r1 r2 => ∃ w1 w2, w = w1 ++ w2 ∧ lang r1 w1 ∧ lang r2 w2
  | Branch r1 r2 => lang r1 w ∨ lang r2 w
  | MaxRepeat lo hi body =>
      ∃ ws, w = concat ws ∧ Forall (lang body) ws
            ∧ (lo ≤ length ws)%nat ∧ within hi (length ws)
  | Group _ body => lang body w
  | Empty => w = []
  end.
End Language.

Definition search {U : Unicode} (p : pattern) (t : pystr) : option Match :=
  search_from (ignorecase p) (expr p) O t.

(** [match.group(i)] for a group of the pattern; a group that took
    no part in the match gives [None]. *)
Definition group (mt : Match) (i : nat) : option pystr := groups mt !! i.

End Re.

(** ** The parsed document (BeautifulSoup)

    The tree that [BeautifulSoup(html, 'html.parser')] builds: tags with
    their attribute dict and their children, and strings with the class
    the tree builder gave them. *)
Module Bs4.

(** [NavigableString] itself, [CData], or another subclass
    ([Comment], [Doctype], [Declaration], [Script], ...). *)
Inductive string_class := NavigableString | CData | OtherString (cls : string).

(** An attribute value: a string, or the list of whitespace-separated
    values of a multi-valued attribute such as [class]. *)
Inductive attr_value :=
| AttrStr (v : pystr)
| AttrList (vs : list pystr).

#[warnings="-register-all"] Inductive PageElement :=
| Tag (name : pystr) (attrs : gmap pystr attr_value) (contents : list PageElement)
| Str (cls : string_class) (t : pystr).

(** [tag.descendants]: every element below the tag, in document
    order. *)
Fixpoint descendants (e : PageElement) : list PageElement :=
  match e with
  | Tag _ _ contents => flat_map (λ c, c :: descendants c) contents
  | Str _ _ => []
  end.

(** [get_text()]: the strings below the tag whose class is exactly
    [NavigableString] or [CData], joined. *)
Definition is_text (cls : string_class) : bool :=
  match cls with
  | NavigableString | CData => true
  | OtherString _ => false
  end.

Definition strings (e : PageElement) : list pystr :=
  omap (λ d, match d with
             | Str cls t => if is_text cls then Some t else None
             | Tag _ _ _ => None
             end) (descendants e).

Definition text (e : PageElement) : pystr := concat (strings e).

(** [' '.join(vs)] *)
Fixpoint join (sep : pystr) (vs : list pystr) : pystr :=
  match vs with
  | [] => []
  | [v] => v
  | v :: vs' => v ++ sep ++ join sep vs'
  end.

(** [SoupStrainer._matches] of an attribute value against a string:
    a multi-valued attribute matches when one of its values is the
    string, or when its values joined with a space are. *)
Definition matches (value : option attr_value) (match_against : pystr) : bool :=
  match value with
  | None => false
  | Some (AttrStr v) => bool_decide (v = match_against)
  | Some (AttrList vs) =>
      existsb (λ v, bool_decide (v = match_against)) vs
      || bool_decide (join (py " ") vs = match_against)
  end.

(** Does [e] pass [find_all(name, class_=class_)]? *)
Definition search_tag (name class_ : pystr) (e : PageElement) : bool :=
  match e with
  | Tag n attrs _ => bool_decide (n = name) && matches (attrs !! py "class") class_
  | Str _ _ => false
  end.

Definition find_all (soup : PageElement) (name class_ : pystr) : list PageElement :=
  filter (λ e, search_tag name class_ e = true) (descendants soup).

(** [find]: the first result of [find_all], or [None]. *)
Definition find (soup : PageElement) (name class_ : pystr) : option PageElement :=
  head (find_all soup name class_).

End Bs4.

(** ** Exceptions, requests and the logger *)

(** A raised exception: its class, and whether the class derives from
    [Exception] (everything but [KeyboardInterrupt], [SystemExit] and
    the like), which is what [except Exception] tests. *)
Record exn := { exn_class : string; isinstance_Exception : bool }.

Definition AttributeError : exn :=
  {| exn_class := "AttributeError"; isinstance_Exception := true |}.

Inductive outcome (A : Type) :=
| Return (a : A)
| Raise (e : exn).
Arguments Return {A} a.
Arguments Raise {A} e.

Inductive request :=
| POST (url : string) (form : list (string * pystr))
| GET (url : string).

Record Response := { status_code : Z; text : pystr }.

Inductive level := INFO | ERROR.

Inductive log_arg :=
| ArgInt (n : Z)
| ArgExn (e : exn).

Record LogRecord := { levelname : level; msg : string; args : list log_arg }.

(** [requests.Session] (cookies and connections), and the remote
    service with the transport beneath it: what a request on a session
    gives, after the requests already sent: a response or a raised
    exception, and the session after it. *)
Class Transport := {
  Session : Type;
  send : list request → Session → request → outcome Response * Session;
}.

(** The tree builder of [html.parser]: the children of the document
    that [BeautifulSoup(html, 'html.parser')] returns, or the exception
    that the constructor raises on markup that the parser rejects. *)
Class TreeBuilder := {
  html_parser : pystr → outcome (list Bs4.PageElement);
}.

(** ** The coordinator *)
Section Sensor.
Context {U : Unicode} {T : Transport} {B : TreeBuilder}.

Definition BeautifulSoup (html : pystr) : outcome Bs4.PageElement :=
  match html_parser html with
  | Return contents => Return (Bs4.Tag (py "[document]") ∅ contents)
  | Raise e => Raise e
  end.

(** The coordinator object, with the logger's records and the
    requests that went out. *)
Record state := {
  _username : pystr;
  _password : pystr;
  _session : Session;
  data : gmap string (option pystr);
  log : list LogRecord;
  sent : list request;
}.

Definition set_data (d : gmap string (option pystr)) (st : state) : state :=
  {| _username := _username st; _password := _password st;
     _session := _session st; data := d; log := log st; sent := sent st |}.

Definition add_log (r : LogRecord) (st : state) : state :=
  {| _username := _username st; _password := _password st;
     _session := _session st; data := data st; log := log st ++ [r];
     sent := sent st |}.

Definition add_sent (r : request) (sess : Session) (st : state) : state :=
  {| _username := _username st; _password := _password st;
     _session := sess; data := data st; log := log st;
     sent := sent st ++ [r] |}.

(** [__init__] *)
Definition init (username password : pystr) (session : Session) : state :=
  {| _username := username; _password := password; _session := session;
     data := ∅; log := []; sent := [] |}.

(** Statements: they read and change the state, and return or raise. *)
Definition M (A : Type) : Type := state → outcome A * state.

#[local] Instance M_ret : MRet M := λ A a st, (Return a, st).

#[local] Instance M_bind : MBind M := λ A B f m st,
  match m st with
  | (Return a, st') => f a st'
  | (Raise e, st') => (Raise e, st')
  end.

Definition raise {A} (e : exn) : M A := λ st, (Raise e, st).

(** A call that returns or raises and leaves the state as it is. *)
Definition call {A} (r : outcome A) : M A := λ st, (r, st).

Definition gets {A} (f : state → A) : M A := λ st, (Return (f st), st).

Definition modify (f : state → state) : M unit := λ st, (Return (), f st).

(** [try: body except Exception as e: handler e] *)
Definition try_except {A} (body : M A) (handler : exn → M A) : M A := λ st,
  match body st with
  | (Raise e, st') =>
      if isinstance_Exception e then handler e st' else (Raise e, st')
  | res => res
  end.

(** [x.attribute] and [x.method(...)] on a value that can be [None]. *)
Definition getattr {A B} (x : option A) (f : A → B) : M B :=
  match x with
  | Some a => mret (f a)
  | None => raise AttributeError
  end.

(** [if x:] for a match object or a tag, which are always true, or
    [None]. *)
Definition truthy {A} (x : option A) : bool :=
  match x with Some _ => true | None => false end.

Definition _LOGGER_error (m : string) (a : list log_arg) : M unit :=
  modify (add_log {| levelname := ERROR; msg := m; args := a |}).

Definition _LOGGER_info (m : string) : M unit :=
  modify (add_log {| levelname := INFO; msg := m; args := [] |}).

(** [self._session.post] and [self._session.get] *)
Definition session_request (r : request) : M Response := λ st,
  let '(res, sess) := send (sent st) (_session st) r in
  (res, add_sent r sess st).

Definition login_url : string := "https://www.iliad.it/account/login".
Definition balance_url : string := "https://www.iliad.it/account/consumi-e-credito".

Definition fetch_data : M (option pystr) :=
  try_except
    (username ← gets _username;
     password ← gets _password;
     let login_data := [("login-ident"%string, username); ("login-pwd"%string, password)] in
     response ← session_request (POST login_url login_data);
     if bool_decide (status_code response ≠ 200%Z) then
       _LOGGER_error "Failed to login to Iliad account. Status code: %s"
         [ArgInt (status_code response)];;
       mret None
     else
       response ← session_request (GET balance_url);
       if bool_decide (status_code response ≠ 200%Z) then
         _LOGGER_error "Failed to retrieve Iliad account page. Status code: %s"
           [ArgInt (status_code response)];;
         mret None
       else
         _LOGGER_info "Fetched most recent data";;
         mret (Some (text response)))
    (λ e,
       _LOGGER_error "Error fetching Iliad data: %s" [ArgExn e];;
       mret None).

(** The double quote, and the three characters that stand after the
    number in the balance pattern of the source: U+00E2, U+201A and
    U+00AC. *)
Definition quote : pystr := [34].
Definition comma : char := 44.
Definition period : char := 46.
Definition glyph : pystr := [226; 8218; 172].

Definition balance_open : pystr :=
  py "<b class=" ++ quote ++ py "red" ++ quote ++ py " data-cs-mask>".
Definition balance_close : pystr := glyph ++ py "</b>".

Definition digit : Re.regex := Re.In [Re.ItemCategory Re.CATEGORY_DIGIT].
Definition space : Re.regex := Re.In [Re.ItemCategory Re.CATEGORY_SPACE].

(** The opening [b] tag with its two attributes; group 1: one or more
    of digit, comma and period; the three characters of [glyph] and
    the closing tag. No flag. *)
Definition balance_pattern : Re.pattern :=
  Re.Pattern
    (Re.Seq (Re.literal balance_open)
       (Re.Seq
          (Re.Group 1
             (Re.MaxRepeat 1 None
                (Re.In [Re.ItemCategory Re.CATEGORY_DIGIT;
                        Re.ItemLiteral comma; Re.ItemLiteral period])))
          (Re.literal balance_close)))
    false.

(** Group 1: one or more digits, at most one period or comma, any
    number of digits; then at most one white space; group 2: one of
    KB, MB, GB and TB. Compiled with [re.IGNORECASE]. *)
Definition size_pattern : Re.pattern :=
  Re.Pattern
    (Re.Seq
       (Re.Group 1
          (Re.Seq (Re.MaxRepeat 1 None digit)
             (Re.Seq
                (Re.MaxRepeat 0 (Some 1%nat)
                   (Re.In [Re.ItemLiteral period; Re.ItemLiteral comma]))
                (Re.MaxRepeat 0 None digit))))
       (Re.Seq (Re.MaxRepeat 0 (Some 1%nat) space)
          (Re.Group 2
             (Re.Branch (Re.literal (py "KB"))
                (Re.Branch (Re.literal (py "MB"))
                   (Re.Branch (Re.literal (py "GB"))
                      (Re.literal (py "TB"))))))))
    true.

(** The loop over the spans: the first one whose text the size
    pattern is found in gives both fields, and ends the loop. *)
Fixpoint scan_usage (spans : list Bs4.PageElement)
    : M (option pystr * option pystr) :=
  match spans with
  | [] => mret (None, None)
  | span :: spans' =>
      let match_ := Re.search size_pattern (Bs4.text span) in
      if truthy match_ then
        group1 ← getattr match_ (λ m, Re.group m 1);
        data_usage ← getattr group1 (replace comma period);
        data_usage_unit ← getattr match_ (λ m, Re.group m 2);
        mret (Some data_usage, data_usage_unit)
      else scan_usage spans'
  end.

Definition parse_data (html : pystr) : M unit :=
  soup ← call (BeautifulSoup html);
  (* Extract balance *)
  let balance_match := Re.search balance_pattern html in
  balance ← (if truthy balance_match
             then getattr balance_match (λ m, Re.group m 1)
             else mret None);
  (* Extract data usage *)
  '(data_usage, data_usage_unit) ← scan_usage (Bs4.find_all soup (py "span") (py "red"));
  (* Extract remaining data *)
  let remaining_value := Bs4.find soup (py "span") (py "big red") in
  let remaining_unit := Bs4.find soup (py "span") (py "small red") in
  remaining_data ← (if truthy remaining_value
                    then getattr remaining_value
                           (λ e, Some (replace comma period (strip (Bs4.text e))))
                    else mret None);
  remaining_data_unit ← (if truthy remaining_unit
                         then getattr remaining_unit (λ e, Some (strip (Bs4.text e)))
                         else mret None);
  modify (set_data
    {[ "balance"%string := balance;
       "data_usage"%string := data_usage;
       "data_usage_unit"%string := data_usage_unit;
       "remaining_data"%string := remaining_data;
       "remaining_data_unit"%string := remaining_data_unit ]});;
  _LOGGER_info "Sensors updated".

(** [if html:] holds for a [str] that is not empty; [None] and the
    empty string are false. *)
Definition _async_update_data : M (gmap string (option pystr)) :=
  html ← fetch_data;
  match html with
  | Some html => if bool_decide (html ≠ []) then parse_data html else mret ()
  | None => mret ()
  end;;
  gets data.
End Sensor.

(** * What the claims are stated with *)

(** What a matcher for one expression owes its caller: a success went
    through the continuation, after a word of [L], with no group lost. *)
Definition sound (L : pystr → Prop)
    (f : pystr → gmap nat pystr → Re.cont → option Re.result) : Prop :=
  ∀ t g k x, f t g k = Some x →
    ∃ w t' g', t = w ++ t' ∧ L w ∧ dom g ⊆ dom g' ∧ k t' g' = Some x.

Section Reading.
Context {U : Unicode} {T : Transport} {B : TreeBuilder}.

(** A character of the number in the balance fragment. *)
Definition balance_char (c : char) : bool :=
  isdecimal c || (c =? comma) || (c =? period).

Definition starts_with (p t : pystr) : bool :=
  bool_decide (take (length p) t = p).

(** The balance fragment stands at the head of [t]: the opening tag,
    one or more characters of the number, the glyph and the closing
    tag. *)
Definition fragment_at (t : pystr) : bool :=
  let rest := drop (length balance_open) t in
  starts_with balance_open t
  && existsb (λ n, forallb balance_char (take n rest)
                   && starts_with balance_close (drop n rest))
       (seq 1 (length rest)).

(** The balance fragment stands somewhere in [t]. *)
Fixpoint contains_fragment (t : pystr) : bool :=
  fragment_at t
  || match t with
     | [] => false
     | _ :: t' => contains_fragment t'
     end.

(** The size pattern is found in the text of [e]. *)
Definition size_matches (e : Bs4.PageElement) : bool :=
  truthy (Re.search size_pattern (Bs4.text e)).

(** The five values of a parse, as functions of the text and of the
    tree built from it. *)
Definition balance_of (html : pystr) : option pystr :=
  m ← Re.search balance_pattern html; Re.group m 1.

Fixpoint first_size (spans : list Bs4.PageElement) : option Re.Match :=
  match spans with
  | [] => None
  | span :: spans' =>
      match Re.search size_pattern (Bs4.text span) with
      | Some m => Some m
      | None => first_size spans'
      end
  end.

Definition usage_of (soup : Bs4.PageElement) : option pystr * option pystr :=
  match first_size (Bs4.find_all soup (py "span") (py "red")) with
  | Some m => (replace comma period <$> Re.group m 1, Re.group m 2)
  | None => (None, None)
  end.

Definition remaining_of (soup : Bs4.PageElement) : option pystr :=
  (λ e, replace comma period (strip (Bs4.text e)))
    <$> Bs4.find soup (py "span") (py "big red").

Definition remaining_unit_of (soup : Bs4.PageElement) : option pystr :=
  (λ e, strip (Bs4.text e))
    <$> Bs4.find soup (py "span") (py "small red").

(** The Reading of a text and of the tree built from it. *)
Definition parsed (html : pystr) (soup : Bs4.PageElement)
    : gmap string (option pystr) :=
  {[ "balance"%string := balance_of html;
     "data_usage"%string := (usage_of soup).1;
     "data_usage_unit"%string := (usage_of soup).2;
     "remaining_data"%string := remaining_of soup;
     "remaining_data_unit"%string := remaining_unit_of soup ]}.

(** The records the logger gets. *)
Definition sensors_updated : LogRecord :=
  {| levelname := INFO; msg := "Sensors updated"; args := [] |}.
Definition fetched : LogRecord :=
  {| levelname := INFO; msg := "Fetched most recent data"; args := [] |}.
Definition login_failed (status : Z) : LogRecord :=
  {| levelname := ERROR;
     msg := "Failed to login to Iliad account. Status code: %s";
     args := [ArgInt status] |}.
Definition page_failed (status : Z) : LogRecord :=
  {| levelname := ERROR;
     msg := "Failed to retrieve Iliad account page. Status code: %s";
     args := [ArgInt status] |}.
Definition fetch_error (e : exn) : LogRecord :=
  {| levelname := ERROR; msg := "Error fetching Iliad data: %s";
     args := [ArgExn e] |}.

(** The two requests of a cycle. *)
Definition login_request (st : state) : request :=
  POST login_url
    [("login-ident"%string, _username st); ("login-pwd"%string, _password st)].
Definition page_request : request := GET balance_url.

(** The status of the answer to the login request of the cycle that
    starts in [st], when there is an answer. *)
Definition login_status (st : state) : option Z :=
  match send (sent st) (_session st) (login_request st) with
  | (Return resp, _) => Some (status_code resp)
  | (Raise _, _) => None
  end.

(** The transport raises [e] during the cycle that starts in [st]:
    at the login request, or, after a login answered with 200, at the
    page request. *)
Definition raised_during_fetch (st : state) (e : exn) : Prop :=
  match send (sent st) (_session st) (login_request st) with
  | (Raise e', _) => e' = e
  | (Return resp, sess) =>
      status_code resp = 200%Z
      ∧ match send (sent st ++ [login_request st]) sess page_request with
        | (Raise e', _) => e' = e
        | (Return _, _) => False
        end
  end.

(** Both requests of the cycle that starts in [st] are answered with
    200, the page request with the body [html]. *)
Definition fetched_page (st : state) (html : pystr) : Prop :=
  match send (sent st) (_session st) (login_request st) with
  | (Return resp, sess) =>
      status_code resp = 200%Z
      ∧ match send (sent st ++ [login_request st]) sess page_request with
        | (Return resp', _) => status_code resp' = 200%Z ∧ text resp' = html
        | (Raise _, _) => False
        end
  | (Raise _, _) => False
  end.

(** The Reading with every field absent. *)
Definition all_absent : gmap string (option pystr) :=
  {[ "balance"%string := None;
     "data_usage"%string := None;
     "data_usage_unit"%string := None;
     "remaining_data"%string := None;
     "remaining_data_unit"%string := None ]}.
End Reading.

(** * Tables, pages and servers of the examples *)

(** The character tables cut down to Latin-1: no decimal digit beyond
    ASCII there, the next-line and the no-break space, and the capital
    letters of the upper half. Further characters are taken as they
    are, which is right for the euro sign and for the low quotation
    mark of the examples. *)
Definition latin1 : Unicode := {|
  unicode_isdecimal := λ _, false;
  unicode_isspace := λ c, (c =? 133) || (c =? 160);
  unicode_tolower := λ c,
    if (192 <=? c) && (c <=? 222) && negb (c =? 215) then c + 32 else c;
|}.

Definition euro : pystr := [8364].

(** A [span] with its classes and its text, as markup and as the tree
    builder returns it. *)
Definition span_html (classes : list pystr) (txt : pystr) : pystr :=
  py "<span class=" ++ quote ++ Bs4.join (py " ") classes ++ quote ++ py ">"
    ++ txt ++ py "</span>".

Definition span_tag (classes : list pystr) (txt : pystr) : Bs4.PageElement :=
  Bs4.Tag (py "span") {[ py "class" := Bs4.AttrList classes ]}
    [Bs4.Str Bs4.NavigableString txt].

Definition b_tag (txt : pystr) : Bs4.PageElement :=
  Bs4.Tag (py "b")
    {[ py "class" := Bs4.AttrList [py "red"];
       py "data-cs-mask" := Bs4.AttrStr [] ]}
    [Bs4.Str Bs4.NavigableString txt].

(** The fragment of the balance with the euro sign after the number,
    and with the three characters of the pattern. *)
Definition page_euro : pystr := balance_open ++ py "12,34" ++ euro ++ py "</b>".
Definition page_glyph : pystr := balance_open ++ py "12,34" ++ balance_close.

(** Three spans of class [red]: no size, then two sizes. *)
Definition page_usage : pystr :=
  span_html [py "red"] (py "n/a") ++ span_html [py "red"] (py "5 GB")
    ++ span_html [py "red"] (py "10gb").
Definition tree_usage : list Bs4.PageElement :=
  [span_tag [py "red"] (py "n/a"); span_tag [py "red"] (py "5 GB");
   span_tag [py "red"] (py "10gb")].

(** The value and the unit of the remaining data. *)
Definition page_remaining : pystr :=
  span_html [py "big"; py "red"] (py "3,5")
    ++ span_html [py "small"; py "red"] (py " GB ").
Definition tree_remaining : list Bs4.PageElement :=
  [span_tag [py "big"; py "red"] (py "3,5");
   span_tag [py "small"; py "red"] (py " GB ")].

(** The same after another value of the same classes. *)
Definition page_two_values : pystr :=
  span_html [py "big"; py "red"] (py "7") ++ page_remaining.
Definition tree_two_values : list Bs4.PageElement :=
  span_tag [py "big"; py "red"] (py "7") :: tree_remaining.

(** A page without markup. *)
Definition page_plain : pystr := py "Servizio in manutenzione".

(** A marked section that [html.parser] does not know: the parser
    fails on it with an [AssertionError], which the constructor raises
    as [ParserRejectedMarkup]. *)
Definition page_marked : pystr := py "<![x[y]]>".

Definition ParserRejectedMarkup : exn :=
  {| exn_class := "bs4.exceptions.ParserRejectedMarkup";
     isinstance_Exception := true |}.

(** The trees of these pages; a text without markup is one string, and
    the empty text has no tree. *)
Definition example_trees : list (pystr * list Bs4.PageElement) :=
  [(page_euro, [b_tag (py "12,34" ++ euro)]);
   (page_glyph, [b_tag (py "12,34" ++ glyph)]);
   (page_usage, tree_usage);
   (page_remaining, tree_remaining);
   (page_two_values, tree_two_values)].

Fixpoint tree_of (table : list (pystr * list Bs4.PageElement)) (html : pystr)
    : list Bs4.PageElement :=
  match table with
  | [] => if bool_decide (html = []) then [] else [Bs4.Str Bs4.NavigableString html]
  | (page, tree) :: table' =>
      if bool_decide (page = html) then tree else tree_of table' html
  end.

Definition example_builder : TreeBuilder :=
  {| html_parser := λ html,
       if bool_decide (html = page_marked) then Raise ParserRejectedMarkup
       else Return (tree_of example_trees html) |}.

(** The document of a tree. *)
Definition document (contents : list Bs4.PageElement) : Bs4.PageElement :=
  Bs4.Tag (py "[document]") ∅ contents.

Definition ConnectTimeout : exn :=
  {| exn_class := "requests.exceptions.ConnectTimeout";
     isinstance_Exception := true |}.
Definition ConnectionError : exn :=
  {| exn_class := "requests.exceptions.ConnectionError";
     isinstance_Exception := true |}.

(** Four services. The session holds whether the login went through. *)
Definition answer (status : Z) (body : pystr) : Response :=
  {| status_code := status; text := body |}.

(** Every login is refused. *)
Definition refusing : Transport :=
  {| Session := bool;
     send := λ _ sess r,
       match r with
       | POST _ _ => (Return (answer 403 (py "Forbidden")), false)
       | GET _ => (Return (answer 403 (py "Forbidden")), sess)
       end |}.

(** No connection comes about. *)
Definition unreachable : Transport :=
  {| Session := bool; send := λ _ sess _, (Raise ConnectTimeout, sess) |}.

(** The login goes through, the connection is reset at the page. *)
Definition resetting : Transport :=
  {| Session := bool;
     send := λ _ sess r,
       match r with
       | POST _ _ => (Return (answer 200 (py "ok")), true)
       | GET _ => (Raise ConnectionError, sess)
       end |}.

(** The login goes through, and the page is served to whom is logged
    in. *)
Definition serving (page : pystr) : Transport :=
  {| Session := bool;
     send := λ _ sess r,
       match r with
       | POST _ _ => (Return (answer 200 (py "ok")), true)
       | GET _ =>
           if sess then (Return (answer 200 page), sess)
           else (Return (answer 403 (py "Forbidden")), sess)
       end |}.

(** A coordinator that has never refreshed, and one with a Reading in
    its cache. *)
Definition fresh (T : Transport) (session : Session) : state :=
  init (py "user") (py "secret") session.

Definition old_reading : gmap string (option pystr) :=
  {[ "balance"%string := Some (py "9.99");
     "data_usage"%string := Some (py "1.2");
     "data_usage_unit"%string := Some (py "GB");
     "remaining_data"%string := Some (py "48.8");
     "remaining_data_unit"%string := Some (py "GB") ]}.

Definition cached (T : Transport) (session : Session) : state :=
  set_data old_reading (fresh T session).

(** * The entities and the life of a coordinator *)

(** [dict.get(key)]: the value, and [None] for a key that is not in
    the dict. *)
Definition dict_get (d : gmap string (option pystr)) (key : string) : option pystr :=
  default None (d !! key).

(** The coordinator that an entity reads. *)
Definition IliadDataCoordinator {T : Transport} : Type := state.

(** [IliadBaseSensor] *)
Definition should_poll : bool := false.

Module IliadBalanceSensor.
Definition name : string := "Iliad Balance".
Definition state {T : Transport} (coordinator : IliadDataCoordinator) : option pystr :=
  dict_get (data coordinator) "balance".
Definition unit_of_measurement {T : Transport} (coordinator : IliadDataCoordinator)
    : option pystr := Some (py "EUR").
Definition icon : string := "mdi:currency-eur".
End IliadBalanceSensor.

Module IliadDataUsageSensor.
Definition name : string := "Iliad Data Usage".
Definition state {T : Transport} (coordinator : IliadDataCoordinator) : option pystr :=
  dict_get (data coordinator) "data_usage".
Definition unit_of_measurement {T : Transport} (coordinator : IliadDataCoordinator)
    : option pystr := dict_get (data coordinator) "data_usage_unit".
Definition icon : string := "mdi:progress-download".
End IliadDataUsageSensor.

Module IliadRemainingDataSensor.
Definition name : string := "Iliad Remaining Data".
Definition state {T : Transport} (coordinator : IliadDataCoordinator) : option pystr :=
  dict_get (data coordinator) "remaining_data".
Definition unit_of_measurement {T : Transport} (coordinator : IliadDataCoordinator)
    : option pystr := dict_get (data coordinator) "remaining_data_unit".
Definition icon : string := "mdi:progress-check".
End IliadRemainingDataSensor.

(** The states a coordinator goes through: the one [__init__] leaves,
    and the one after each cycle, however the cycle ends. *)
Inductive reachable {U : Unicode} {T : Transport} {B : TreeBuilder} : state → Prop :=
| reachable_init username password session :
    reachable (init username password session)
| reachable_cycle st :
    reachable st → reachable (_async_update_data st).2.

(** ** More of what the properties are stated with *)

(** The expression has a group numbered [j]. *)
Fixpoint has_group (j : nat) (r : Re.regex) : bool :=
  match r with
  | Re.Literal _ | Re.In _ | Re.Empty => false
  | Re.Seq r1 r2 | Re.Branch r1 r2 => has_group j r1 || has_group j r2
  | Re.MaxRepeat _ _ body => has_group j body
  | Re.Group i body => bool_decide (i = j) || has_group j body
  end.

(** The expression has no empty word, by its shape. *)
Fixpoint consuming (r : Re.regex) : bool :=
  match r with
  | Re.Literal _ | Re.In _ => true
  | Re.Seq r1 r2 => consuming r1 || consuming r2
  | Re.Branch r1 r2 => consuming r1 && consuming r2
  | Re.MaxRepeat lo _ body => bool_decide (0 < lo)%nat && consuming body
  | Re.Group _ body => consuming body
  | Re.Empty => false
  end.

(** The body of every repeat of the expression has no empty word, which
    is what the matcher asks of a repeat. *)
Fixpoint productive (r : Re.regex) : bool :=
  match r with
  | Re.Literal _ | Re.In _ | Re.Empty => true
  | Re.Seq r1 r2 | Re.Branch r1 r2 => productive r1 && productive r2
  | Re.MaxRepeat _ _ body => consuming body && productive body
  | Re.Group _ body => productive body
  end.

(** What a matcher for one expression gives its caller: on a word of
    [L] followed by a rest that the continuation accepts with any
    groups, it succeeds. *)
Definition complete (L : pystr → Prop)
    (f : pystr → gmap nat pystr → Re.cont → option Re.result) : Prop :=
  ∀ w t' g k, L w → (∀ g', is_Some (k t' g')) → is_Some (f (w ++ t') g k).

(** A word of the size pattern's first group once its comma is a
    period: digits, then nothing or a period, then digits. *)
Definition amount_shaped {U : Unicode} (a : pystr) : Prop :=
  ∃ int frac, int ≠ [] ∧ forallb isdecimal int = true
    ∧ forallb isdecimal frac = true
    ∧ (a = int ++ frac ∨ a = int ++ [period] ++ frac).

(** A size as the size pattern reads it: digits, then nothing, a
    period or a comma, then digits; at most one white space; a unit
    that is KB, MB, GB or TB in some case. *)
Definition size_text {U : Unicode} (amount sp unit : pystr) : Prop :=
  (∃ int sep frac, amount = int ++ sep ++ frac
     ∧ int ≠ [] ∧ forallb isdecimal int = true ∧ forallb isdecimal frac = true
     ∧ (sep = [] ∨ sep = [period] ∨ sep = [comma]))
  ∧ (length sp ≤ 1)%nat ∧ forallb isspace sp = true
  ∧ tolower <$> unit ∈ [py "kb"; py "mb"; py "gb"; py "tb"].

(** No white space at either end. *)
Definition trimmed {U : Unicode} (t : pystr) : Prop :=
  (∀ c, head t = Some c → isspace c = false)
  ∧ (∀ c, last t = Some c → isspace c = false).

(** A success of the matcher went through the continuation after a
    word of [L], with the groups numbered in [J] as they were. *)
Definition traced (L : pystr → Prop) (J : nat → Prop)
    (f : pystr → gmap nat pystr → Re.cont → option Re.result) : Prop :=
  ∀ t g k x, f t g k = Some x →
    ∃ w t' g', t = w ++ t' ∧ L w ∧ (∀ j, J j → g' !! j = g !! j)
               ∧ k t' g' = Some x.

(** The status of the answer to the page request of the cycle that
    starts in [st], when the login request and the page request are
    answered. *)
Definition page_status {T : Transport} (st : state) : option Z :=
  match send (sent st) (_session st) (login_request st) with
  | (Return _, sess) =>
      match send (sent st ++ [login_request st]) sess page_request with
      | (Return resp', _) => Some (status_code resp')
      | (Raise _, _) => None
      end
  | (Raise _, _) => None
  end.

(** An exception that does not derive from [Exception], and a
    transport that is interrupted at the page request. *)
Definition KeyboardInterrupt : exn :=
  {| exn_class := "KeyboardInterrupt"; isinstance_Exception := false |}.

Definition interrupted : Transport :=
  {| Session := bool;
     send := λ _ sess r,
       match r with
       | POST _ _ => (Return (answer 200 (py "ok")), true)
       | GET _ => (Raise KeyboardInterrupt, sess)
       end |}.

(** The login goes through, the page is refused. *)
Definition failing : Transport :=
  {| Session := bool;
     send := λ _ sess r,
       match r with
       | POST _ _ => (Return (answer 200 (py "ok")), true)
       | GET _ => (Return (answer 503 (py "Service Unavailable")), sess)
       end |}.

(** * Properties *)

(** ** The matcher finds words of the expression only *)
Section ReFacts.
Context {U : Unicode}.
Variable flag_i : bool.

Implicit Types (t w : pystr) (g : gmap nat pystr) (k : Re.cont).

Lemma within_below hi n : Re.within hi n → Re.below n hi = true → Re.within hi (S n).
Proof.
  destruct hi as [h|]; simpl; [|done].
  intros _ Hlt. apply bool_decide_eq_true in Hlt. lia.
Qed.

Lemma rep_sound L body lo hi k :
  sound L body →
  ∀ fuel count t g x,
    Re.within hi count →
    Re.rep body lo hi k fuel count t g = Some x →
    ∃ ws t' g', t = concat ws ++ t' ∧ Forall L ws
      ∧ (lo ≤ count + length ws)%nat ∧ Re.within hi (count + length ws)
      ∧ dom g ⊆ dom g' ∧ k t' g' = Some x.
Proof.
  intros Hbody fuel.
  assert (Hleave : ∀ count t g x, Re.within hi count →
            (if bool_decide (lo ≤ count)%nat then k t g else None) = Some x →
            ∃ ws t' g', t = concat ws ++ t' ∧ Forall L ws
              ∧ (lo ≤ count + length ws)%nat ∧ Re.within hi (count + length ws)
              ∧ dom g ⊆ dom g' ∧ k t' g' = Some x).
  { intros count t g x Hw Hk. case_bool_decide; [|done].
    exists [], t, g. simpl. rewrite Nat.add_0_r. by repeat split. }
  induction fuel as [|fuel IH]; intros count t g x Hw; simpl.
  - by apply Hleave.
  - destruct (Re.below count hi) eqn:Hb; [|by apply Hleave].
    destruct (body t g _) as [res|] eqn:Hrun; [|by apply Hleave].
    intros [= ->].
    apply Hbody in Hrun as (w & t1 & g1 & -> & Hw1 & Hd1 & Hk1).
    case_bool_decide; [|done].
    apply IH in Hk1 as (ws & t' & g' & -> & Hws & Hlo & Hhi & Hd & Hk);
      [|by apply within_below].
    exists (w :: ws), t', g'. simpl. rewrite (assoc_L (++)).
    repeat split; [by constructor|lia| |set_solver|done].
    by rewrite Nat.add_succ_r.
Qed.

Lemma run_sound r : sound (Re.lang flag_i r) (Re.run flag_i r).
Proof.
  induction r as [p|items|r1 IH1 r2 IH2|r1 IH1 r2 IH2|lo hi body IH|i body IH|];
    intros t g k x; simpl.
  - destruct t as [|c t]; [done|].
    destruct (Re.literal_matches _ _ _) eqn:Hc; [|done]. intros Hk.
    exists [c], t, g. repeat split; eauto.
  - destruct t as [|c t]; [done|].
    destruct (existsb _ _) eqn:Hc; [|done]. intros Hk.
    exists [c], t, g. repeat split; eauto.
  - intros Hrun.
    apply IH1 in Hrun as (w1 & t1 & g1 & -> & Hw1 & Hd1 & Hrun).
    apply IH2 in Hrun as (w2 & t2 & g2 & -> & Hw2 & Hd2 & Hk).
    exists (w1 ++ w2), t2, g2. rewrite (assoc_L (++)).
    repeat split; [by exists w1, w2|set_solver|done].
  - destruct (Re.run _ r1 _ _ _) as [res|] eqn:Hrun.
    + intros [= ->].
      apply IH1 in Hrun as (w & t' & g' & -> & Hw & Hd & Hk).
      exists w, t', g'. repeat split; auto.
    + intros Hrun2.
      apply IH2 in Hrun2 as (w & t' & g' & -> & Hw & Hd & Hk).
      exists w, t', g'. repeat split; auto.
  - intros Hrep.
    apply (rep_sound _ _ _ _ _ IH) in Hrep
      as (ws & t' & g' & -> & Hws & Hlo & Hhi & Hd & Hk);
      [|by destruct hi; simpl; [lia|]].
    exists (concat ws), t', g'. repeat split; [by exists ws|done|done].
  - intros Hrun.
    apply IH in Hrun as (w & t' & g' & -> & Hw & Hd & Hk).
    eexists w, t', _. repeat split; [done| |exact Hk].
    rewrite dom_insert_L. set_solver.
  - intros Hk. exists [], t, g. by repeat split.
Qed.

(** A successful search cuts the subject into what stands before the
    match, a word of the expression, and what stands after it. *)
Lemma search_from_sound r t : ∀ pos mt,
  Re.search_from flag_i r pos t = Some mt →
  ∃ pre w post, t = pre ++ w ++ post ∧ Re.lang flag_i r w.
Proof.
  induction t as [|c t IH]; intros pos mt; simpl.
  - destruct (Re.run _ _ _ _ _) as [[t' g']|] eqn:Hrun; [|done].
    intros _. apply run_sound in Hrun as (w & t1 & g1 & Ht & Hw & _).
    exists [], w, t1. by split.
  - destruct (Re.run _ _ _ _ _) as [[t' g']|] eqn:Hrun.
    + intros _. apply run_sound in Hrun as (w & t1 & g1 & Ht & Hw & _).
      exists [], w, t1. by split.
    + intros Hs. apply IH in Hs as (pre & w & post & -> & Hw).
      exists (c :: pre), w, post. by split.
Qed.

(** The groups of a match object are those the run ended with. *)
Lemma search_from_groups r t : ∀ pos mt,
  Re.search_from flag_i r pos t = Some mt →
  ∃ t0 t' , Re.run flag_i r t0 ∅ (λ t' g, Some (t', g)) = Some (t', Re.groups mt).
Proof.
  induction t as [|c t IH]; intros pos mt; simpl.
  - destruct (Re.run _ _ _ _ _) as [[t' g']|] eqn:Hrun; [|done].
    intros [= <-]. by exists [], t'.
  - destruct (Re.run _ _ _ _ _) as [[t' g']|] eqn:Hrun.
    + intros [= <-]. by exists (c :: t), t'.
    + intros Hs. by apply IH in Hs.
Qed.
End ReFacts.

(** ** The two patterns *)
Section PatternFacts.
Context {U : Unicode}.

Implicit Types (t w num : pystr).

Lemma run_group i body flag t g k x :
  Re.run flag (Re.Group i body) t g k = Some x →
  ∃ t' g', i ∈ dom g' ∧ k t' g' = Some x.
Proof.
  simpl. intros Hrun.
  apply run_sound in Hrun as (w & t' & g' & _ & _ & _ & Hk).
  eexists t', _. split; [|exact Hk].
  rewrite dom_insert_L. set_solver.
Qed.

Lemma run_seq_group i body rest flag t x :
  Re.run flag (Re.Seq (Re.Group i body) rest) t ∅ (λ t' g, Some (t', g)) = Some x →
  i ∈ dom x.2.
Proof.
  change (Re.run flag (Re.Seq (Re.Group i body) rest) t ∅ (λ t' g, Some (t', g)))
    with (Re.run flag (Re.Group i body) t ∅
            (λ t' g', Re.run flag rest t' g' (λ t' g, Some (t', g)))).
  intros (t1 & g1 & Hin & Hrun)%run_group.
  apply run_sound in Hrun as (w & t2 & g2 & _ & _ & Hd & [= <-]).
  set_solver.
Qed.

(** A match of the size pattern has its first group. *)
Lemma size_pattern_group1 t m :
  Re.search size_pattern t = Some m → is_Some (Re.group m 1).
Proof.
  intros Hs. apply search_from_groups in Hs as (t0 & t' & Hrun).
  apply (run_seq_group 1) in Hrun. by apply elem_of_dom.
Qed.

Lemma lang_literal t : ∀ w, Re.lang false (Re.literal t) w → w = t.
Proof.
  induction t as [|c t IH]; intros w; simpl; [done|].
  intros (w1 & w2 & -> & (c' & -> & Hc) & Hw2).
  apply N.eqb_eq in Hc as ->. by rewrite (IH _ Hw2).
Qed.

Lemma lang_balance w :
  Re.lang false (Re.expr balance_pattern) w →
  ∃ num, w = balance_open ++ num ++ balance_close
         ∧ num ≠ [] ∧ forallb balance_char num = true.
Proof.
  intros (w1 & w2 & -> & Hopen & (w3 & w4 & -> & Hnum & Hclose)).
  apply lang_literal in Hopen as ->. apply lang_literal in Hclose as ->.
  destruct Hnum as (ws & -> & Hws & Hlo & _).
  exists (concat ws). split; [done|]. split.
  - destruct Hws as [|w ws (c & -> & _) _]; simpl in *; [lia|done].
  - clear Hlo. induction Hws as [|w ws (c & -> & Hc) _ IH]; [done|].
    simpl in *. rewrite IH, andb_true_r.
    unfold balance_char. by rewrite orb_false_r, orb_assoc in Hc.
Qed.

Lemma starts_with_app p t : starts_with p (p ++ t) = true.
Proof. apply bool_decide_eq_true. by rewrite take_app_length. Qed.

Lemma fragment_at_intro num post :
  num ≠ [] → forallb balance_char num = true →
  fragment_at (balance_open ++ num ++ balance_close ++ post) = true.
Proof.
  intros Hne Hnum. unfold fragment_at.
  rewrite starts_with_app, drop_app_length, andb_true_l.
  apply existsb_exists. exists (length num). split.
  - apply in_seq. rewrite !length_app. destruct num; [done|]. simpl. lia.
  - by rewrite take_app_length, drop_app_length, Hnum, starts_with_app.
Qed.

Lemma contains_fragment_intro pre num post :
  num ≠ [] → forallb balance_char num = true →
  contains_fragment (pre ++ balance_open ++ num ++ balance_close ++ post) = true.
Proof.
  intros Hne Hnum. induction pre as [|c pre IH].
  - assert (Hhead : ∀ t, fragment_at t = true → contains_fragment t = true).
    { intros [|c t] Ht; cbn [contains_fragment]; by rewrite Ht. }
    by apply Hhead, fragment_at_intro.
  - cbn [app contains_fragment]. by rewrite IH, orb_true_r.
Qed.

(** What [contains_fragment] decides. *)
Lemma contains_fragment_spec t :
  contains_fragment t = true ↔
  ∃ pre num post, t = pre ++ balance_open ++ num ++ balance_close ++ post
                  ∧ num ≠ [] ∧ forallb balance_char num = true.
Proof.
  split.
  - assert (Hat : ∀ t, fragment_at t = true →
              ∃ num post, t = balance_open ++ num ++ balance_close ++ post
                ∧ num ≠ [] ∧ forallb balance_char num = true).
    { clear t. intros t. unfold fragment_at.
      intros [Hopen Hex]%andb_true_iff.
      apply bool_decide_eq_true in Hopen.
      apply existsb_exists in Hex as (n & Hn%in_seq & [Hnum Hclose]%andb_true_iff).
      apply bool_decide_eq_true in Hclose.
      exists (take n (drop (length balance_open) t)),
             (drop (length balance_close) (drop n (drop (length balance_open) t))).
      split; [|split; [|done]].
      - rewrite <- Hclose at 1. rewrite take_drop.
        rewrite take_drop. rewrite <- Hopen at 1. by rewrite take_drop.
      - intros Hnil. apply (f_equal length) in Hnil.
        rewrite length_take in Hnil. cbn [length] in Hnil. lia. }
    induction t as [|c t IH]; cbn [contains_fragment].
    + rewrite orb_false_r. intros (num & post & -> & ?)%Hat.
      by exists [], num, post.
    + intros [Hhere|Hlater]%orb_true_iff.
      * apply Hat in Hhere as (num & post & -> & ?). by exists [], num, post.
      * apply IH in Hlater as (pre & num & post & -> & ?).
        by exists (c :: pre), num, post.
  - intros (pre & num & post & -> & Hne & Hnum).
    by apply contains_fragment_intro.
Qed.

(** Without the fragment in the text, the balance pattern is not
    found. *)
Lemma balance_absent html :
  contains_fragment html = false → Re.search balance_pattern html = None.
Proof.
  intros Hno. destruct (Re.search _ _) as [m|] eqn:Hs; [|done].
  apply search_from_sound in Hs as (pre & w & post & -> & Hw).
  apply lang_balance in Hw as (num & -> & Hne & Hnum).
  rewrite <- !(assoc_L (++)), contains_fragment_intro in Hno; done.
Qed.
End PatternFacts.

(** ** Parsing *)
Section ParseFacts.
Context {U : Unicode} {T : Transport} {B : TreeBuilder}.

Implicit Types (st : state) (html : pystr).

Lemma scan_usage_eq spans st :
  scan_usage spans st =
  (Return match first_size spans with
          | Some m => (replace comma period <$> Re.group m 1, Re.group m 2)
          | None => (None, None)
          end, st).
Proof.
  induction spans as [|span spans IH]; [done|].
  cbn [scan_usage first_size].
  destruct (Re.search size_pattern (Bs4.text span)) as [m|] eqn:Hs; [|exact IH].
  destruct (size_pattern_group1 _ _ Hs) as [g1 Hg1].
  cbn [truthy]. unfold mbind, M_bind, getattr, mret, M_ret.
  by rewrite Hg1.
Qed.

(** On a text that the tree is built from, [parse_data] returns, it
    stores the five values of the text and the tree, whatever was
    stored before, and logs once. *)
Lemma parse_data_eq html soup st :
  BeautifulSoup html = Return soup →
  parse_data html st =
  (Return (), add_log sensors_updated (set_data (parsed html soup) st)).
Proof.
  intros Hsoup.
  unfold parse_data, parsed, balance_of, usage_of, remaining_of, remaining_unit_of.
  unfold mbind at 1. unfold M_bind at 1. unfold call. rewrite Hsoup.
  unfold mbind at 1 2. unfold M_bind at 1 2.
  destruct (Re.search balance_pattern html) as [m|];
    cbn [truthy getattr mret M_ret option_bind];
    rewrite scan_usage_eq;
    destruct (first_size _) as [m'|];
    destruct (Bs4.find _ _ (py "big red")) as [e1|];
    destruct (Bs4.find _ _ (py "small red")) as [e2|];
    reflexivity.
Qed.

(** An exception of the constructor leaves [parse_data] before
    anything is stored or logged. *)
Lemma parse_data_raises html (e : exn) st :
  BeautifulSoup html = Raise e → parse_data html st = (Raise e, st).
Proof.
  intros Hsoup. unfold parse_data.
  unfold mbind at 1. unfold M_bind at 1. unfold call. by rewrite Hsoup.
Qed.
End ParseFacts.

(** ** Fetching: the five ways a cycle can go *)
Section FetchFacts.
Context {U : Unicode} {T : Transport} {B : TreeBuilder}.

Implicit Types (st : state) (html : pystr) (resp : Response) (e : exn).

Ltac fetch_step :=
  unfold fetch_data, try_except, mbind, M_bind, gets, session_request,
    _LOGGER_error, _LOGGER_info, modify, mret, M_ret.

Lemma fetch_login_raises st e sess :
  send (sent st) (_session st) (login_request st) = (Raise e, sess) →
  isinstance_Exception e = true →
  fetch_data st =
  (Return None, add_log (fetch_error e) (add_sent (login_request st) sess st)).
Proof.
  intros Hsend He. fetch_step.
  change (POST login_url _) with (login_request st).
  by rewrite Hsend, He.
Qed.

Lemma fetch_login_refused st resp sess :
  send (sent st) (_session st) (login_request st) = (Return resp, sess) →
  status_code resp ≠ 200%Z →
  fetch_data st =
  (Return None,
   add_log (login_failed (status_code resp)) (add_sent (login_request st) sess st)).
Proof.
  intros Hsend Hstatus. fetch_step.
  change (POST login_url _) with (login_request st).
  rewrite Hsend. by rewrite bool_decide_eq_true_2.
Qed.

Lemma fetch_page_raises st resp sess e sess' :
  send (sent st) (_session st) (login_request st) = (Return resp, sess) →
  status_code resp = 200%Z →
  send (sent st ++ [login_request st]) sess page_request = (Raise e, sess') →
  isinstance_Exception e = true →
  fetch_data st =
  (Return None,
   add_log (fetch_error e)
     (add_sent page_request sess' (add_sent (login_request st) sess st))).
Proof.
  intros Hsend Hstatus Hsend' He. fetch_step.
  change (POST login_url _) with (login_request st).
  rewrite Hsend. rewrite bool_decide_eq_false_2 by (by intros ?).
  cbn [sent _session add_sent].
  change (GET balance_url) with page_request.
  by rewrite Hsend', He.
Qed.

Lemma fetch_page_refused st resp sess resp' sess' :
  send (sent st) (_session st) (login_request st) = (Return resp, sess) →
  status_code resp = 200%Z →
  send (sent st ++ [login_request st]) sess page_request = (Return resp', sess') →
  status_code resp' ≠ 200%Z →
  fetch_data st =
  (Return None,
   add_log (page_failed (status_code resp'))
     (add_sent page_request sess' (add_sent (login_request st) sess st))).
Proof.
  intros Hsend Hstatus Hsend' Hstatus'. fetch_step.
  change (POST login_url _) with (login_request st).
  rewrite Hsend. rewrite bool_decide_eq_false_2 by (by intros ?).
  cbn [sent _session add_sent].
  change (GET balance_url) with page_request.
  rewrite Hsend'. by rewrite bool_decide_eq_true_2.
Qed.

Lemma fetch_page_ok st resp sess resp' sess' :
  send (sent st) (_session st) (login_request st) = (Return resp, sess) →
  status_code resp = 200%Z →
  send (sent st ++ [login_request st]) sess page_request = (Return resp', sess') →
  status_code resp' = 200%Z →
  fetch_data st =
  (Return (Some (text resp')),
   add_log fetched
     (add_sent page_request sess' (add_sent (login_request st) sess st))).
Proof.
  intros Hsend Hstatus Hsend' Hstatus'. fetch_step.
  change (POST login_url _) with (login_request st).
  rewrite Hsend. rewrite bool_decide_eq_false_2 by (by intros ?).
  cbn [sent _session add_sent].
  change (GET balance_url) with page_request.
  rewrite Hsend'. by rewrite bool_decide_eq_false_2 by (by intros ?).
Qed.

(** A cycle whose fetch gives [None] changes nothing but the log and
    the requests sent. *)
Lemma update_after_failure st st' :
  fetch_data st = (Return None, st') →
  _async_update_data st = (Return (data st'), st').
Proof.
  intros Hfetch. unfold _async_update_data, mbind, M_bind.
  by rewrite Hfetch.
Qed.
End FetchFacts.

(** ** The stored Reading, field by field *)
Section ReadingFacts.
Context {U : Unicode} {T : Transport} {B : TreeBuilder}.

Implicit Types (st : state) (html : pystr) (soup : Bs4.PageElement).

Lemma parsed_balance html soup :
  parsed html soup !! "balance"%string = Some (balance_of html).
Proof. unfold parsed. by rewrite lookup_insert_eq. Qed.

Lemma parsed_data_usage html soup :
  parsed html soup !! "data_usage"%string = Some (usage_of soup).1.
Proof. unfold parsed. rewrite lookup_insert_ne by done. by rewrite lookup_insert_eq. Qed.

Lemma parsed_data_usage_unit html soup :
  parsed html soup !! "data_usage_unit"%string = Some (usage_of soup).2.
Proof. unfold parsed. rewrite !lookup_insert_ne by done. by rewrite lookup_insert_eq. Qed.

Lemma parsed_remaining_data html soup :
  parsed html soup !! "remaining_data"%string = Some (remaining_of soup).
Proof. unfold parsed. rewrite !lookup_insert_ne by done. by rewrite lookup_insert_eq. Qed.

Lemma parsed_remaining_data_unit html soup :
  parsed html soup !! "remaining_data_unit"%string = Some (remaining_unit_of soup).
Proof. unfold parsed. rewrite !lookup_insert_ne by done. by rewrite lookup_singleton_eq. Qed.

Lemma data_parse_data html soup st :
  BeautifulSoup html = Return soup →
  data (parse_data html st).2 = parsed html soup.
Proof. intros Hsoup. by rewrite (parse_data_eq _ _ _ Hsoup). Qed.

(** The balance pattern is not found in a text without U+00E2. *)
Lemma balance_needs_glyph html :
  226 ∉ html → Re.search balance_pattern html = None.
Proof.
  intros Hno. destruct (Re.search _ _) as [m|] eqn:Hs; [|done].
  apply search_from_sound in Hs as (pre & w & post & -> & Hw).
  apply lang_balance in Hw as (num & -> & _).
  destruct Hno. unfold balance_close, glyph. set_solver.
Qed.

(** The spans before the first one with a size do not count. *)
Lemma first_size_skip pre rest :
  forallb (λ x, negb (size_matches x)) pre = true →
  first_size (pre ++ rest) = first_size rest.
Proof.
  induction pre as [|x pre IH]; [done|].
  cbn [forallb app first_size]. unfold size_matches at 1.
  intros [Hx Hpre]%andb_true_iff.
  destruct (Re.search size_pattern (Bs4.text x)); [done|]. by apply IH.
Qed.

(** The two fields of the usage are those of the first span with a
    size: the first group with its commas turned into periods, and the
    second group as it is written. *)
Lemma usage_of_first soup pre e post m :
  Bs4.find_all soup (py "span") (py "red") = pre ++ e :: post →
  forallb (λ x, negb (size_matches x)) pre = true →
  Re.search size_pattern (Bs4.text e) = Some m →
  usage_of soup = (replace comma period <$> Re.group m 1, Re.group m 2).
Proof.
  intros Hspans Hpre Hm. unfold usage_of.
  rewrite Hspans, (first_size_skip _ _ Hpre). cbn [first_size]. by rewrite Hm.
Qed.

Lemma usage_absent soup :
  forallb (λ x, negb (size_matches x))
    (Bs4.find_all soup (py "span") (py "red")) = true →
  usage_of soup = (None, None).
Proof.
  intros Hnone. unfold usage_of.
  rewrite <- (app_nil_r (Bs4.find_all _ _ _)).
  by rewrite (first_size_skip _ [] Hnone).
Qed.

(** A text with nothing to find gives the Reading with every field
    absent. *)
Lemma parsed_all_absent html soup :
  contains_fragment html = false →
  forallb (λ x, negb (size_matches x))
    (Bs4.find_all soup (py "span") (py "red")) = true →
  Bs4.find soup (py "span") (py "big red") = None →
  Bs4.find soup (py "span") (py "small red") = None →
  parsed html soup = all_absent.
Proof.
  intros Hbal Huse Hrem Hunit.
  unfold parsed, balance_of, remaining_of, remaining_unit_of.
  by rewrite (balance_absent _ Hbal), (usage_absent _ Huse), Hrem, Hunit.
Qed.
End ReadingFacts.

(** ** The claims *)
Section Claims.
Context {U : Unicode} {T : Transport} {B : TreeBuilder}.

Implicit Types (st : state) (html : pystr) (soup : Bs4.PageElement).

(** C1, on the code as it is: for the raw text that is the fragment
    of the claim, the opening [b] tag, [12,34], the euro sign and the
    closing tag, [parse_data] stores no balance, whatever the
    character tables and the tree builder are: when it returns, the
    balance it has stored is [None] (and when the constructor raises,
    it has stored nothing): the pattern wants U+00E2, U+201A and
    U+00AC where the text has the euro sign. *)
Theorem balance_euro_not_found st :
  match parse_data page_euro st with
  | (Return _, st') => data st' !! "balance"%string = Some None
  | (Raise _, st') => st' = st
  end.
Proof.
  destruct (BeautifulSoup page_euro) as [soup|e] eqn:Hsoup.
  - rewrite (parse_data_eq _ _ _ Hsoup). cbn [data set_data add_log].
    rewrite parsed_balance. unfold balance_of.
    rewrite balance_needs_glyph; [done|].
    apply (bool_decide_unpack _). by vm_compute.
  - by rewrite (parse_data_raises _ _ _ Hsoup).
Qed.

(** C2: when, among the spans of class [red] of the tree built from
    the text, in document order, the first whose text the size pattern
    is found in has the text [5 GB], [parse_data] stores the amount
    [5] and the unit [GB], whatever spans come after it ([10gb] or any
    other). *)
Theorem usage_first_match html soup st pre e post :
  BeautifulSoup html = Return soup →
  Bs4.find_all soup (py "span") (py "red") = pre ++ e :: post →
  forallb (λ x, negb (size_matches x)) pre = true →
  Bs4.text e = py "5 GB" →
  data (parse_data html st).2 !! "data_usage"%string = Some (Some (py "5"))
  ∧ data (parse_data html st).2 !! "data_usage_unit"%string = Some (Some (py "GB")).
Proof.
  intros Hsoup Hspans Hpre Htext.
  assert (∃ m, Re.search size_pattern (py "5 GB") = Some m
               ∧ Re.group m 1 = Some (py "5") ∧ Re.group m 2 = Some (py "GB"))
    as (m & Hm & Hg1 & Hg2).
  { eexists. split; [vm_compute; reflexivity|]. split; vm_compute; reflexivity. }
  rewrite <- Htext in Hm.
  rewrite (data_parse_data _ _ _ Hsoup), parsed_data_usage, parsed_data_usage_unit.
  rewrite (usage_of_first _ _ _ _ _ Hspans Hpre Hm). cbn [fst snd].
  rewrite Hg1, Hg2. split; by vm_compute.
Qed.

(** C3, as amended: in the tree built from the text, when the first
    span in document order whose class attribute is [big red] has the
    text [3,5], [parse_data] stores the remaining amount [3.5]; when
    the first span of class [small red] has the text [ GB ], it stores
    the unit [GB]; and each of the two fields is absent when the tree
    has no span of its class, whatever the other one is. *)
Theorem remaining_first_element html soup st :
  BeautifulSoup html = Return soup →
  (∀ e, Bs4.find soup (py "span") (py "big red") = Some e →
        Bs4.text e = py "3,5" →
        data (parse_data html st).2 !! "remaining_data"%string = Some (Some (py "3.5")))
  ∧ (∀ e, Bs4.find soup (py "span") (py "small red") = Some e →
          Bs4.text e = py " GB " →
          data (parse_data html st).2 !! "remaining_data_unit"%string
          = Some (Some (py "GB")))
  ∧ (Bs4.find soup (py "span") (py "big red") = None →
     data (parse_data html st).2 !! "remaining_data"%string = Some None)
  ∧ (Bs4.find soup (py "span") (py "small red") = None →
     data (parse_data html st).2 !! "remaining_data_unit"%string = Some None).
Proof.
  intros Hsoup.
  rewrite (data_parse_data _ _ _ Hsoup), parsed_remaining_data,
    parsed_remaining_data_unit.
  unfold remaining_of, remaining_unit_of.
  repeat split.
  - intros e -> Htext. cbn [fmap option_fmap option_map]. rewrite Htext.
    by vm_compute.
  - intros e -> Htext. cbn [fmap option_fmap option_map]. rewrite Htext.
    by vm_compute.
  - by intros ->.
  - by intros ->.
Qed.

(** C4: when the login request is answered with a status other than
    200, the cycle logs the login failure with that status, sends no
    request after the login request, and returns and keeps the
    Reading that was cached. *)
Theorem login_refused_keeps_cache st status :
  login_status st = Some status →
  status ≠ 200%Z →
  ∃ st', _async_update_data st = (Return (data st), st')
    ∧ data st' = data st
    ∧ log st' = log st ++ [login_failed status]
    ∧ sent st' = sent st ++ [login_request st].
Proof.
  unfold login_status. intros Hlogin Hstatus.
  destruct (send _ _ _) as [[resp|e] sess] eqn:Hsend; [|done].
  injection Hlogin as <-.
  pose proof (fetch_login_refused _ _ _ Hsend Hstatus) as Hfetch.
  apply update_after_failure in Hfetch.
  eexists. split; [exact Hfetch|done].
Qed.

(** C5: an exception of a class that derives from [Exception], as
    the timeouts and connection errors of the transport do, raised at
    the login request or at the page request, does not leave
    [fetch_data]: [fetch_data] returns [None] and logs the error, and
    the cycle returns and keeps the Reading that was cached. *)
Theorem transport_exception_caught st (e : exn) :
  isinstance_Exception e = true →
  raised_during_fetch st e →
  ∃ st', fetch_data st = (Return None, st')
    ∧ _async_update_data st = (Return (data st), st')
    ∧ data st' = data st
    ∧ last (log st') = Some (fetch_error e).
Proof.
  unfold raised_during_fetch. intros He Hraise.
  destruct (send _ _ (login_request st)) as [[resp|e1] sess] eqn:Hsend.
  - destruct Hraise as [Hstatus Hraise].
    destruct (send _ _ page_request) as [[resp'|e2] sess'] eqn:Hsend'; [done|].
    subst e2.
    pose proof (fetch_page_raises _ _ _ _ _ Hsend Hstatus Hsend' He) as Hfetch.
    eexists. split; [exact Hfetch|]. split; [|split; [done|]].
    + by apply update_after_failure in Hfetch.
    + cbn [log add_log]. apply last_snoc.
  - subst e1.
    pose proof (fetch_login_raises _ _ _ Hsend He) as Hfetch.
    eexists. split; [exact Hfetch|]. split; [|split; [done|]].
    + by apply update_after_failure in Hfetch.
    + cbn [log add_log]. apply last_snoc.
Qed.

(** C6, as amended: in a cycle whose two requests are answered with
    200, whose page is not the empty string and is one that the
    constructor builds a tree from, the cache becomes the Reading of
    that page alone, whatever was cached: a field whose pattern is not
    found in the page is absent afterwards. *)
Theorem refresh_replaces_reading st html soup :
  fetched_page st html →
  html ≠ [] →
  BeautifulSoup html = Return soup →
  ∃ st', _async_update_data st = (Return (parsed html soup), st')
    ∧ data st' = parsed html soup
    ∧ (contains_fragment html = false → data st' !! "balance"%string = Some None)
    ∧ (forallb (λ x, negb (size_matches x))
         (Bs4.find_all soup (py "span") (py "red")) = true →
       data st' !! "data_usage"%string = Some None
       ∧ data st' !! "data_usage_unit"%string = Some None)
    ∧ (Bs4.find soup (py "span") (py "big red") = None →
       data st' !! "remaining_data"%string = Some None)
    ∧ (Bs4.find soup (py "span") (py "small red") = None →
       data st' !! "remaining_data_unit"%string = Some None).
Proof.
  unfold fetched_page. intros Hfetched Hne Hsoup.
  destruct (send _ _ (login_request st)) as [[resp|e1] sess] eqn:Hsend; [|done].
  destruct Hfetched as [Hstatus Hfetched].
  destruct (send _ _ page_request) as [[resp'|e2] sess'] eqn:Hsend'; [|done].
  destruct Hfetched as [Hstatus' <-].
  pose proof (fetch_page_ok _ _ _ _ _ Hsend Hstatus Hsend' Hstatus') as Hfetch.
  eexists. split.
  { unfold _async_update_data, mbind, M_bind. rewrite Hfetch.
    rewrite bool_decide_eq_true_2 by done.
    by rewrite (parse_data_eq _ _ _ Hsoup). }
  cbn [data set_data add_log].
  rewrite parsed_balance, parsed_data_usage, parsed_data_usage_unit,
    parsed_remaining_data, parsed_remaining_data_unit.
  unfold balance_of, remaining_of, remaining_unit_of.
  split; [done|]. split; [|split; [|split]].
  - intros Hno. by rewrite (balance_absent _ Hno).
  - intros Hnone. by rewrite (usage_absent _ Hnone).
  - by intros ->.
  - by intros ->.
Qed.

(** C7, on the code as it is: [parse_data] raises exactly when the
    constructor does, with the exception of the constructor and before
    anything is stored or logged; on every other raw text it returns
    and stores the Reading of the text and the tree. The markup that
    the tree builder rejects is where "never raises" fails. *)
Theorem parse_raises_with_constructor html st :
  match BeautifulSoup html with
  | Return soup =>
      parse_data html st
      = (Return (), add_log sensors_updated (set_data (parsed html soup) st))
  | Raise e => parse_data html st = (Raise e, st)
  end.
Proof.
  destruct (BeautifulSoup html) as [soup|e] eqn:Hsoup.
  - by apply parse_data_eq.
  - by apply parse_data_raises.
Qed.

(** C8: the Reading that [parse_data] stores is a function of the
    raw text: a second call on the same text ends as the first and
    stores the same Reading again, a call from any other state ends as
    the first, and stores the same Reading when it returns. *)
Theorem parse_idempotent html st st0 :
  let st1 := (parse_data html st).2 in
  (parse_data html st1).1 = (parse_data html st).1
  ∧ data (parse_data html st1).2 = data st1
  ∧ (parse_data html st0).1 = (parse_data html st).1
  ∧ ((parse_data html st).1 = Return () →
     data (parse_data html st0).2 = data st1).
Proof.
  cbn zeta. destruct (BeautifulSoup html) as [soup|e] eqn:Hsoup.
  - by rewrite !(parse_data_eq _ _ _ Hsoup).
  - by rewrite !(parse_data_raises _ _ _ Hsoup).
Qed.

(** C10: in a cycle whose two requests are answered with 200 and
    whose page is the empty string, [parse_data] is not called: the
    log gets the record of the fetch and no record of a parse, and
    the cycle returns and keeps the Reading that was cached. *)
Theorem empty_body_skips_parse st :
  fetched_page st [] →
  ∃ st', _async_update_data st = (Return (data st), st')
    ∧ data st' = data st
    ∧ log st' = log st ++ [fetched]
    ∧ sent st' = sent st ++ [login_request st; page_request].
Proof.
  unfold fetched_page. intros Hfetched.
  destruct (send _ _ (login_request st)) as [[resp|e1] sess] eqn:Hsend; [|done].
  destruct Hfetched as [Hstatus Hfetched].
  destruct (send _ _ page_request) as [[resp'|e2] sess'] eqn:Hsend'; [|done].
  destruct Hfetched as [Hstatus' Htext].
  pose proof (fetch_page_ok _ _ _ _ _ Hsend Hstatus Hsend' Hstatus') as Hfetch.
  rewrite Htext in Hfetch.
  eexists. split.
  { unfold _async_update_data, mbind, M_bind. rewrite Hfetch.
    by rewrite bool_decide_eq_false_2 by (by intros ?). }
  cbn [data log sent add_log add_sent]. repeat split.
  by rewrite <- (assoc_L (++)).
Qed.
End Claims.

(** ** The claims on the pages and servers of the examples *)

(** With the three characters of the pattern after the number, the
    balance is found, and stored as it is written. *)
Example balance_glyph_found :
  data (parse_data (U:=latin1) (T:=serving page_glyph) (B:=example_builder)
          page_glyph (fresh (serving page_glyph) false)).2 !! "balance"%string
  = Some (Some (py "12,34")).
Proof. by vm_compute. Qed.

(** With the euro sign after the number, the tree is built and the
    parse returns, and no balance is stored. *)
Example balance_euro_parsed :
  let st := fresh (serving page_euro) false in
  (parse_data (U:=latin1) (B:=example_builder) page_euro st).1 = Return ()
  ∧ data (parse_data (U:=latin1) (B:=example_builder) page_euro st).2
      !! "balance"%string = Some None.
Proof. by vm_compute. Qed.

Lemma usage_first_match_witness :
  let st := fresh (serving page_usage) false in
  let soup := document tree_usage in
  (BeautifulSoup (B:=example_builder) page_usage = Return soup
   ∧ Bs4.find_all soup (py "span") (py "red")
     = [span_tag [py "red"] (py "n/a")]
         ++ span_tag [py "red"] (py "5 GB") :: [span_tag [py "red"] (py "10gb")]
   ∧ forallb (λ x, negb (size_matches (U:=latin1) x))
       [span_tag [py "red"] (py "n/a")] = true
   ∧ Bs4.text (span_tag [py "red"] (py "5 GB")) = py "5 GB")
  ∧ data (parse_data (U:=latin1) (B:=example_builder) page_usage st).2
      !! "data_usage"%string = Some (Some (py "5"))
  ∧ data (parse_data (U:=latin1) (B:=example_builder) page_usage st).2
      !! "data_usage_unit"%string = Some (Some (py "GB")).
Proof.
  split; [by vm_compute|].
  apply (usage_first_match (U:=latin1) (B:=example_builder) page_usage
           (document tree_usage)
           (fresh (serving page_usage) false)
           [span_tag [py "red"] (py "n/a")]
           (span_tag [py "red"] (py "5 GB"))
           [span_tag [py "red"] (py "10gb")]);
    by vm_compute.
Defined.

(** The claim C3 as it is written fails on a text with two values of
    class [big red]: the text has a value element with the text [3,5]
    and a unit element with the text [ GB ], and the remaining amount
    that is stored is that of the first value element, [7]. *)
Lemma remaining_second_value_counterexample :
  let soup := document tree_two_values in
  let st' := (parse_data (U:=latin1) (B:=example_builder) page_two_values
                (fresh (serving page_two_values) false)).2 in
  BeautifulSoup (B:=example_builder) page_two_values = Return soup
  ∧ Bs4.text <$> Bs4.find_all soup (py "span") (py "big red") = [py "7"; py "3,5"]
  ∧ Bs4.text <$> Bs4.find_all soup (py "span") (py "small red") = [py " GB "]
  ∧ data st' !! "remaining_data"%string = Some (Some (py "7"))
  ∧ data st' !! "remaining_data"%string ≠ Some (Some (py "3.5")).
Proof. by vm_compute. Qed.

Lemma remaining_first_element_witness :
  let found := parse_data (U:=latin1) (B:=example_builder) page_remaining
                 (fresh (serving page_remaining) false) in
  let missing := parse_data (U:=latin1) (B:=example_builder) page_plain
                   (fresh (serving page_plain) false) in
  (BeautifulSoup (B:=example_builder) page_remaining
   = Return (document tree_remaining)
   ∧ data found.2 !! "remaining_data"%string = Some (Some (py "3.5"))
   ∧ data found.2 !! "remaining_data_unit"%string = Some (Some (py "GB")))
  ∧ (BeautifulSoup (B:=example_builder) page_plain
     = Return (document [Bs4.Str Bs4.NavigableString page_plain])
     ∧ data missing.2 !! "remaining_data"%string = Some None
     ∧ data missing.2 !! "remaining_data_unit"%string = Some None).
Proof.
  assert (BeautifulSoup (B:=example_builder) page_remaining
          = Return (document tree_remaining)) as Hfound by (by vm_compute).
  assert (BeautifulSoup (B:=example_builder) page_plain
          = Return (document [Bs4.Str Bs4.NavigableString page_plain]))
    as Hmissing by (by vm_compute).
  destruct (remaining_first_element (U:=latin1) (B:=example_builder) page_remaining
              (document tree_remaining)
              (fresh (serving page_remaining) false) Hfound)
    as (Hvalue & Hunit & _ & _).
  destruct (remaining_first_element (U:=latin1) (B:=example_builder) page_plain
              (document [Bs4.Str Bs4.NavigableString page_plain])
              (fresh (serving page_plain) false) Hmissing)
    as (_ & _ & Hno_value & Hno_unit).
  split; (split; [done|split]).
  - by apply (Hvalue (span_tag [py "big"; py "red"] (py "3,5"))); vm_compute.
  - by apply (Hunit (span_tag [py "small"; py "red"] (py " GB "))); vm_compute.
  - apply Hno_value. by vm_compute.
  - apply Hno_unit. by vm_compute.
Defined.

Lemma login_refused_keeps_cache_witness :
  let st := cached refusing false in
  (login_status st = Some 403%Z ∧ 403%Z ≠ 200%Z)
  ∧ ∃ st', _async_update_data (U:=latin1) (B:=example_builder) st
           = (Return old_reading, st')
      ∧ data st' = old_reading
      ∧ log st' = [login_failed 403]
      ∧ sent st' = [login_request st].
Proof.
  split; [by split|].
  apply (login_refused_keeps_cache (U:=latin1) (B:=example_builder)
           (cached refusing false) 403); [reflexivity|lia].
Defined.

Lemma transport_exception_caught_witness :
  let at_login := cached unreachable false in
  let at_page := cached resetting false in
  ((isinstance_Exception ConnectTimeout = true
    ∧ raised_during_fetch at_login ConnectTimeout)
   ∧ ∃ st', fetch_data at_login = (Return None, st')
       ∧ _async_update_data (U:=latin1) (B:=example_builder) at_login
         = (Return old_reading, st')
       ∧ data st' = old_reading
       ∧ last (log st') = Some (fetch_error ConnectTimeout))
  ∧ ((isinstance_Exception ConnectionError = true
      ∧ raised_during_fetch at_page ConnectionError)
     ∧ ∃ st', fetch_data at_page = (Return None, st')
         ∧ _async_update_data (U:=latin1) (B:=example_builder) at_page
           = (Return old_reading, st')
         ∧ data st' = old_reading
         ∧ last (log st') = Some (fetch_error ConnectionError)).
Proof.
  split; (split; [by split; vm_compute|]).
  - apply (transport_exception_caught (U:=latin1) (B:=example_builder)
             (cached unreachable false) ConnectTimeout);
      [reflexivity|by vm_compute].
  - apply (transport_exception_caught (U:=latin1) (B:=example_builder)
             (cached resetting false) ConnectionError);
      [reflexivity|by vm_compute].
Defined.

Lemma refresh_replaces_reading_witness :
  let st := cached (serving page_remaining) false in
  (fetched_page st page_remaining ∧ page_remaining ≠ []
   ∧ BeautifulSoup (B:=example_builder) page_remaining
     = Return (document tree_remaining))
  ∧ ∃ st' : @state (serving page_remaining),
      data st !! "balance"%string = Some (Some (py "9.99"))
      ∧ data st' !! "balance"%string = Some None
      ∧ data st' !! "data_usage"%string = Some None
      ∧ data st' !! "remaining_data"%string = Some (Some (py "3.5")).
Proof.
  split; [by split; [|split]; vm_compute|].
  destruct (refresh_replaces_reading (U:=latin1) (B:=example_builder)
              (cached (serving page_remaining) false) page_remaining
              (document tree_remaining))
    as (st' & _ & Hdata & Hbalance & Husage & _);
    [by vm_compute|done|by vm_compute|].
  exists st'. split; [by vm_compute|]. split; [|split].
  - apply Hbalance. by vm_compute.
  - apply Husage. by vm_compute.
  - rewrite Hdata. by vm_compute.
Defined.

(** The marked section of the examples, which the tree builder
    rejects: [parse_data] raises, and a cycle that fetched the page
    raises and keeps the Reading that was cached. *)
Example parse_marked_section_raises :
  let st := cached (serving page_marked) false in
  parse_data (U:=latin1) (B:=example_builder) page_marked st
  = (Raise ParserRejectedMarkup, st)
  ∧ (_async_update_data (U:=latin1) (B:=example_builder) st).1
    = Raise ParserRejectedMarkup
  ∧ data (_async_update_data (U:=latin1) (B:=example_builder) st).2
    = old_reading.
Proof. by vm_compute. Qed.

Lemma parse_idempotent_witness :
  let st := cached (serving page_usage) false in
  let st0 := fresh (serving page_usage) true in
  let st1 := (parse_data (U:=latin1) (B:=example_builder) page_usage st).2 in
  (parse_data (U:=latin1) (B:=example_builder) page_usage st).1 = Return ()
  ∧ data (parse_data (U:=latin1) (B:=example_builder) page_usage st0).2
    = data st1.
Proof.
  destruct (parse_idempotent (U:=latin1) (B:=example_builder) page_usage
              (cached (serving page_usage) false)
              (fresh (serving page_usage) true))
    as (_ & _ & _ & Hsame).
  split; [by vm_compute|]. apply Hsame. by vm_compute.
Defined.

Lemma empty_body_skips_parse_witness :
  let st := cached (serving []) false in
  fetched_page st []
  ∧ ∃ st', _async_update_data (U:=latin1) (B:=example_builder) st
           = (Return old_reading, st')
      ∧ data st' = old_reading
      ∧ log st' = [fetched]
      ∧ sent st' = [login_request st; page_request].
Proof.
  split; [by vm_compute|].
  apply (empty_body_skips_parse (U:=latin1) (B:=example_builder)
           (cached (serving []) false)).
  by vm_compute.
Defined.

(** The claim C6 as it is written fails on a cycle whose two requests
    are answered with 200 and whose page is the empty string: the
    balance pattern is not found in the new raw text, and the balance
    of the cycle before is still in the cache afterwards. *)
Lemma empty_page_keeps_reading_counterexample :
  let st := cached (serving []) false in
  let st' := (_async_update_data (U:=latin1) (B:=example_builder) st).2 in
  fetched_page st []
  ∧ Re.search (U:=latin1) balance_pattern [] = None
  ∧ data st !! "balance"%string = Some (Some (py "9.99"))
  ∧ data st' !! "balance"%string = Some (Some (py "9.99"))
  ∧ data st' !! "balance"%string ≠ Some None.
Proof. by vm_compute. Qed.

(** * Further properties *)

(** ** A cycle, whichever way it goes *)
Section CycleFacts.
Context {U : Unicode} {T : Transport} {B : TreeBuilder}.

Implicit Types (st : state) (html : pystr).

Ltac fetch_step :=
  unfold fetch_data, try_except, mbind, M_bind, gets, session_request,
    _LOGGER_error, _LOGGER_info, modify, mret, M_ret.

Lemma fetch_login_interrupts st (e : exn) sess :
  send (sent st) (_session st) (login_request st) = (Raise e, sess) →
  isinstance_Exception e = false →
  fetch_data st = (Raise e, add_sent (login_request st) sess st).
Proof.
  intros Hsend He. fetch_step.
  change (POST login_url _) with (login_request st).
  by rewrite Hsend, He.
Qed.

Lemma fetch_page_interrupts st resp sess (e : exn) sess' :
  send (sent st) (_session st) (login_request st) = (Return resp, sess) →
  status_code resp = 200%Z →
  send (sent st ++ [login_request st]) sess page_request = (Raise e, sess') →
  isinstance_Exception e = false →
  fetch_data st =
  (Raise e, add_sent page_request sess' (add_sent (login_request st) sess st)).
Proof.
  intros Hsend Hstatus Hsend' He. fetch_step.
  change (POST login_url _) with (login_request st).
  rewrite Hsend. rewrite bool_decide_eq_false_2 by (by intros ?).
  cbn [sent _session add_sent].
  change (GET balance_url) with page_request.
  by rewrite Hsend', He.
Qed.

(** The seven ways of [fetch_data], by the answers of the transport. *)
Ltac fetch_cases st Hfetch :=
  destruct (send (sent st) (_session st) (login_request st))
    as [[resp|e] sess] eqn:Hsend;
  [ destruct (decide (status_code resp = 200%Z)) as [Hstatus|Hstatus];
    [ destruct (send (sent st ++ [login_request st]) sess page_request)
        as [[resp'|e] sess'] eqn:Hsend';
      [ destruct (decide (status_code resp' = 200%Z)) as [Hstatus'|Hstatus'];
        [ pose proof (fetch_page_ok _ _ _ _ _ Hsend Hstatus Hsend' Hstatus') as Hfetch
        | pose proof (fetch_page_refused _ _ _ _ _ Hsend Hstatus Hsend' Hstatus')
            as Hfetch ]
      | destruct (isinstance_Exception e) eqn:He;
        [ pose proof (fetch_page_raises _ _ _ _ _ Hsend Hstatus Hsend' He) as Hfetch
        | pose proof (fetch_page_interrupts _ _ _ _ _ Hsend Hstatus Hsend' He)
            as Hfetch ] ]
    | pose proof (fetch_login_refused _ _ _ Hsend Hstatus) as Hfetch ]
  | destruct (isinstance_Exception e) eqn:He;
    [ pose proof (fetch_login_raises _ _ _ Hsend He) as Hfetch
    | pose proof (fetch_login_interrupts _ _ _ Hsend He) as Hfetch ] ].

(** X1: when the login is answered with 200 and the page request with
    another status, the cycle logs the failure of the page with that
    status, has sent both requests, and returns and keeps the Reading
    that was cached. *)
Theorem page_refused_keeps_cache st status :
  login_status st = Some 200%Z →
  page_status st = Some status →
  status ≠ 200%Z →
  ∃ st', _async_update_data st = (Return (data st), st')
    ∧ data st' = data st
    ∧ log st' = log st ++ [page_failed status]
    ∧ sent st' = sent st ++ [login_request st; page_request].
Proof.
  unfold login_status, page_status. intros Hlogin Hpage Hstatus.
  destruct (send _ _ (login_request st)) as [[resp|e] sess] eqn:Hsend; [|done].
  injection Hlogin as Hlogin.
  destruct (send _ _ page_request) as [[resp'|e] sess'] eqn:Hsend'; [|done].
  injection Hpage as <-.
  pose proof (fetch_page_refused _ _ _ _ _ Hsend Hlogin Hsend' Hstatus) as Hfetch.
  apply update_after_failure in Hfetch.
  eexists. split; [exact Hfetch|].
  cbn [data log sent add_log add_sent]. repeat split.
  by rewrite <- (assoc_L (++)).
Qed.

(** X2: however [fetch_data] ends, the cached Reading and the
    credentials are what they were. *)
Theorem fetch_data_keeps_cache st :
  data (fetch_data st).2 = data st
  ∧ _username (fetch_data st).2 = _username st
  ∧ _password (fetch_data st).2 = _password st.
Proof. fetch_cases st Hfetch; by rewrite Hfetch. Qed.

(** X3: [fetch_data] sends the login request with the credentials of
    the coordinator, and nothing else unless the login is answered with
    200; then it sends the page request, and no third request. *)
Theorem fetch_data_requests st :
  sent (fetch_data st).2 = sent st ++ [login_request st]
  ∨ (login_status st = Some 200%Z
     ∧ sent (fetch_data st).2 = sent st ++ [login_request st; page_request]).
Proof.
  unfold login_status.
  fetch_cases st Hfetch; rewrite Hfetch; cbn [snd sent add_log add_sent];
    first [by left | right; split; [by rewrite Hstatus|by rewrite <- (assoc_L (++))]].
Qed.

(** X4: an exception that does not derive from [Exception], raised at
    the login request or at the page request, leaves [fetch_data] and
    the cycle: nothing is logged, and the cached Reading is kept. *)
Theorem other_exception_propagates st (e : exn) :
  isinstance_Exception e = false →
  raised_during_fetch st e →
  ∃ st', fetch_data st = (Raise e, st')
    ∧ _async_update_data st = (Raise e, st')
    ∧ data st' = data st
    ∧ log st' = log st.
Proof.
  unfold raised_during_fetch. intros He Hraise.
  destruct (send _ _ (login_request st)) as [[resp|e1] sess] eqn:Hsend.
  - destruct Hraise as [Hstatus Hraise].
    destruct (send _ _ page_request) as [[resp'|e2] sess'] eqn:Hsend'; [done|].
    subst e2.
    pose proof (fetch_page_interrupts _ _ _ _ _ Hsend Hstatus Hsend' He) as Hfetch.
    eexists. split; [exact Hfetch|]. split; [|done].
    unfold _async_update_data, mbind, M_bind. by rewrite Hfetch.
  - subst e1.
    pose proof (fetch_login_interrupts _ _ _ Hsend He) as Hfetch.
    eexists. split; [exact Hfetch|]. split; [|done].
    unfold _async_update_data, mbind, M_bind. by rewrite Hfetch.
Qed.

(** X5: [fetch_data] returns a text exactly when both requests are
    answered with 200, and the text is the body of the page. *)
Theorem fetch_data_returns_page st html :
  (fetch_data st).1 = Return (Some html) ↔ fetched_page st html.
Proof.
  unfold fetched_page.
  fetch_cases st Hfetch; rewrite Hfetch; cbn [fst]; split;
    try done; try (by intros [??]); try (by intros [? [??]]).
  - intros [= <-]. done.
  - intros (_ & _ & ->). done.
Qed.

(** X17: no failure is swallowed in silence: when [fetch_data] returns
    [None] it has logged one record, an error; when it returns a text
    it has logged the one record of the fetch; when an exception
    leaves it, it has logged nothing. *)
Theorem fetch_data_logs st :
  match fetch_data st with
  | (Return None, st') =>
      ∃ record, log st' = log st ++ [record] ∧ levelname record = ERROR
  | (Return (Some _), st') => log st' = log st ++ [fetched]
  | (Raise _, st') => log st' = log st
  end.
Proof. fetch_cases st Hfetch; rewrite Hfetch; try done; by eexists. Qed.

(** The cache after a cycle: the one before, or the Reading of a page
    that is not empty and that a tree is built from. *)
Lemma cycle_data st :
  data (_async_update_data st).2 = data st
  ∨ ∃ html soup, html ≠ [] ∧ fetched_page st html
      ∧ BeautifulSoup html = Return soup
      ∧ data (_async_update_data st).2 = parsed html soup.
Proof.
  unfold _async_update_data, mbind, M_bind, fetched_page.
  fetch_cases st Hfetch; rewrite Hfetch; try by left.
  case_bool_decide as Hne; [|by left].
  destruct (BeautifulSoup (text resp')) as [soup|e] eqn:Hsoup.
  - rewrite (parse_data_eq _ _ _ Hsoup). right. by exists (text resp'), soup.
  - rewrite (parse_data_raises _ _ _ Hsoup). by left.
Qed.

(** X6: a cycle that returns gives back the cache it leaves, which is
    the cache it found or, after a page that is not empty and that a
    tree is built from, the Reading of that page; a cycle that raises
    keeps the cache it found, and was left by an exception of the
    transport that does not derive from [Exception], or by the
    exception that the constructor raised on a fetched page that is
    not empty. *)
Theorem cycle_outcome st :
  match _async_update_data st with
  | (Return d, st') =>
      d = data st'
      ∧ (data st' = data st
         ∨ ∃ html soup, html ≠ [] ∧ fetched_page st html
             ∧ BeautifulSoup html = Return soup
             ∧ data st' = parsed html soup)
  | (Raise e, st') =>
      data st' = data st
      ∧ ((isinstance_Exception e = false ∧ raised_during_fetch st e)
         ∨ ∃ html, html ≠ [] ∧ fetched_page st html
             ∧ BeautifulSoup html = Raise e)
  end.
Proof.
  unfold _async_update_data, mbind, M_bind, raised_during_fetch, fetched_page.
  fetch_cases st Hfetch; rewrite Hfetch;
    try (split; [done|by left]).
  case_bool_decide as Hne; [|split; [done|by left]].
  destruct (BeautifulSoup (text resp')) as [soup|e] eqn:Hsoup.
  - rewrite (parse_data_eq _ _ _ Hsoup). split; [done|]. right.
    by exists (text resp'), soup.
  - rewrite (parse_data_raises _ _ _ Hsoup). split; [done|]. right.
    by exists (text resp').
Qed.
End CycleFacts.

(** ** The groups of a match *)
Section GroupFacts.
Context {U : Unicode}.
Variable flag_i : bool.

Implicit Types (t w : pystr) (g : gmap nat pystr) (k : Re.cont).

Lemma rep_traced L (J : nat → Prop) body lo hi k :
  traced L J body →
  ∀ fuel count t g x,
    Re.within hi count →
    Re.rep body lo hi k fuel count t g = Some x →
    ∃ ws t' g', t = concat ws ++ t' ∧ Forall L ws
      ∧ (lo ≤ count + length ws)%nat ∧ Re.within hi (count + length ws)
      ∧ (∀ j, J j → g' !! j = g !! j) ∧ k t' g' = Some x.
Proof.
  intros Hbody fuel.
  assert (Hleave : ∀ count t g x, Re.within hi count →
            (if bool_decide (lo ≤ count)%nat then k t g else None) = Some x →
            ∃ ws t' g', t = concat ws ++ t' ∧ Forall L ws
              ∧ (lo ≤ count + length ws)%nat ∧ Re.within hi (count + length ws)
              ∧ (∀ j, J j → g' !! j = g !! j) ∧ k t' g' = Some x).
  { intros count t g x Hw Hk. case_bool_decide; [|done].
    exists [], t, g. simpl. rewrite Nat.add_0_r. by repeat split. }
  induction fuel as [|fuel IH]; intros count t g x Hw; simpl.
  - by apply Hleave.
  - destruct (Re.below count hi) eqn:Hb; [|by apply Hleave].
    destruct (body t g _) as [res|] eqn:Hrun; [|by apply Hleave].
    intros [= ->].
    apply Hbody in Hrun as (w & t1 & g1 & -> & Hw1 & Hg1 & Hk1).
    case_bool_decide; [|done].
    apply IH in Hk1 as (ws & t' & g' & -> & Hws & Hlo & Hhi & Hg & Hk);
      [|by apply within_below].
    exists (w :: ws), t', g'. simpl. rewrite (assoc_L (++)).
    split; [done|]. split; [by constructor|]. split; [lia|].
    split; [by rewrite Nat.add_succ_r|]. split; [|done].
    intros j Hj. by rewrite (Hg j Hj), (Hg1 j Hj).
Qed.

(** A success of the matcher leaves the groups that the expression
    does not have as they were. *)
Lemma run_traced r :
  traced (Re.lang flag_i r) (λ j, has_group j r = false) (Re.run flag_i r).
Proof.
  induction r as [p|items|r1 IH1 r2 IH2|r1 IH1 r2 IH2|lo hi body IH|i body IH|];
    intros t g k x; simpl.
  - destruct t as [|c t]; [done|].
    destruct (Re.literal_matches _ _ _) eqn:Hc; [|done]. intros Hk.
    exists [c], t, g. repeat split; eauto.
  - destruct t as [|c t]; [done|].
    destruct (existsb _ _) eqn:Hc; [|done]. intros Hk.
    exists [c], t, g. repeat split; eauto.
  - intros Hrun.
    apply IH1 in Hrun as (w1 & t1 & g1 & -> & Hw1 & Hg1 & Hrun).
    apply IH2 in Hrun as (w2 & t2 & g2 & -> & Hw2 & Hg2 & Hk).
    exists (w1 ++ w2), t2, g2. rewrite (assoc_L (++)).
    split; [done|]. split; [by exists w1, w2|]. split; [|done].
    intros j [Hj1 Hj2]%orb_false_iff. by rewrite (Hg2 j Hj2), (Hg1 j Hj1).
  - destruct (Re.run _ r1 _ _ _) as [res|] eqn:Hrun.
    + intros [= ->].
      apply IH1 in Hrun as (w & t' & g' & -> & Hw & Hg & Hk).
      exists w, t', g'. split; [done|]. split; [by left|]. split; [|done].
      intros j [Hj1 Hj2]%orb_false_iff. auto.
    + intros Hrun2.
      apply IH2 in Hrun2 as (w & t' & g' & -> & Hw & Hg & Hk).
      exists w, t', g'. split; [done|]. split; [by right|]. split; [|done].
      intros j [Hj1 Hj2]%orb_false_iff. auto.
  - intros Hrep.
    apply (rep_traced _ _ _ _ _ _ IH) in Hrep
      as (ws & t' & g' & -> & Hws & Hlo & Hhi & Hg & Hk);
      [|by destruct hi; simpl; [lia|]].
    exists (concat ws), t', g'.
    split; [done|]. split; [by exists ws|]. by split.
  - intros Hrun.
    apply IH in Hrun as (w & t' & g' & -> & Hw & Hg & Hk).
    eexists w, t', _. split; [done|]. split; [done|]. split; [|exact Hk].
    intros j [Hij Hj]%orb_false_iff. apply bool_decide_eq_false in Hij.
    rewrite lookup_insert_ne by done. auto.
  - intros Hk. exists [], t, g. by repeat split.
Qed.

(** The text of a group is the word its body matched. *)
Lemma run_group_text i body t g k x :
  Re.run flag_i (Re.Group i body) t g k = Some x →
  ∃ w t' g', t = w ++ t' ∧ Re.lang flag_i body w
    ∧ (∀ j, has_group j body = false → g' !! j = g !! j)
    ∧ k t' (<[i := w]> g') = Some x.
Proof.
  simpl. intros Hrun.
  apply run_traced in Hrun as (w & t' & g' & -> & Hw & Hg & Hk).
  exists w, t', g'. split; [done|]. split; [done|]. split; [done|].
  by rewrite length_app, Nat.add_sub, take_app_length in Hk.
Qed.

(** The match object of a search comes from a run at some place of
    the subject. *)
Lemma search_from_run r t : ∀ pos mt,
  Re.search_from flag_i r pos t = Some mt →
  ∃ pre t0 t', t = pre ++ t0
    ∧ Re.run flag_i r t0 ∅ (λ t' g, Some (t', g)) = Some (t', Re.groups mt).
Proof.
  induction t as [|c t IH]; intros pos mt; simpl.
  - destruct (Re.run _ _ _ _ _) as [[t' g']|] eqn:Hrun; [|done].
    intros [= <-]. by exists [], [], t'.
  - destruct (Re.run _ _ _ _ _) as [[t' g']|] eqn:Hrun.
    + intros [= <-]. by exists [], (c :: t), t'.
    + intros Hs. apply IH in Hs as (pre & t0 & t' & -> & Hrun').
      by exists (c :: pre), t0, t'.
Qed.

Lemma has_group_literal j s : has_group j (Re.literal s) = false.
Proof. induction s as [|c s IH]; [done|]. simpl. by rewrite IH. Qed.
End GroupFacts.

(** ** What the two patterns capture *)
Section CaptureFacts.
Context {U : Unicode}.

Implicit Types (t w : pystr).

Lemma forallb_eq (f f' : char → bool) w :
  (∀ c, f c = f' c) → forallb f w = forallb f' w.
Proof. intros Hf. induction w as [|c w IH]; [done|]. simpl. by rewrite Hf, IH. Qed.

Lemma run_seq flag r1 r2 t g k :
  Re.run flag (Re.Seq r1 r2) t g k
  = Re.run flag r1 t g (λ t' g', Re.run flag r2 t' g' k).
Proof. done. Qed.

Lemma lang_chars flag lo hi items w :
  Re.lang flag (Re.MaxRepeat lo hi (Re.In items)) w →
  forallb (λ c, existsb (Re.item_matches c) items) w = true
  ∧ (lo ≤ length w)%nat ∧ Re.within hi (length w).
Proof.
  intros (ws & -> & Hws & Hlo & Hhi).
  assert (length (concat ws) = length ws) as Hlen.
  { clear Hlo Hhi. induction Hws as [|w ws (c & -> & _) _ IH]; [done|].
    simpl. by rewrite IH. }
  rewrite Hlen. split; [|done].
  clear Hlo Hhi Hlen. induction Hws as [|w ws (c & -> & Hc) _ IH]; [done|].
  simpl. by rewrite Hc, IH.
Qed.

Lemma balance_match_spec html m :
  Re.search balance_pattern html = Some m →
  ∃ pre num post, html = pre ++ balance_open ++ num ++ balance_close ++ post
    ∧ Re.group m 1 = Some num ∧ num ≠ [] ∧ forallb balance_char num = true.
Proof.
  intros Hs. apply search_from_run in Hs as (pre & t0 & t' & -> & Hrun).
  unfold balance_pattern in Hrun. cbn [Re.expr Re.ignorecase] in Hrun.
  rewrite run_seq in Hrun.
  apply run_traced in Hrun as (w1 & t1 & g1 & -> & Hw1 & _ & Hrun).
  apply lang_literal in Hw1 as ->.
  rewrite run_seq in Hrun.
  apply run_group_text in Hrun as (num & t2 & g2 & -> & Hnum & _ & Hrun).
  apply run_traced in Hrun as (w3 & t3 & g3 & -> & Hw3 & Hg3 & [= -> Hg]).
  apply lang_literal in Hw3 as ->.
  exists pre, num, t'. split; [done|]. split.
  - unfold Re.group. rewrite <- Hg, (Hg3 1%nat (has_group_literal _ _)).
    apply lookup_insert_eq.
  - apply lang_chars in Hnum as (Hchars & Hlo & _). split.
    + intros ->. simpl in Hlo. lia.
    + rewrite <- Hchars. apply forallb_eq. intros c. unfold balance_char.
      simpl. by rewrite orb_false_r, orb_assoc.
Qed.

Lemma replace_decimal w :
  forallb isdecimal w = true → replace comma period w = w.
Proof.
  induction w as [|c w IH]; [done|]. simpl.
  intros [Hc Hw]%andb_true_iff. unfold replace in *. cbn [fmap list_fmap].
  rewrite IH by done. destruct (N.eqb_spec c comma) as [->|]; [|done].
  by vm_compute in Hc.
Qed.

Lemma lang_unit w a b :
  Re.lang true (Re.literal [a; b]) w →
  tolower <$> w = [tolower a; tolower b].
Proof.
  intros (w1 & w2 & -> & (c1 & -> & Hc1) & (w3 & w4 & -> & (c2 & -> & Hc2) & ->)).
  apply N.eqb_eq in Hc1, Hc2. simpl in *. by rewrite Hc1, Hc2.
Qed.

(** A match of the size pattern: the amount, at most one white space
    and the unit stand in the text one after the other; the first group
    is the amount and the second the unit. *)
Lemma size_match_spec t m :
  Re.search size_pattern t = Some m →
  ∃ pre amount sp unit post, t = pre ++ amount ++ sp ++ unit ++ post
    ∧ Re.group m 1 = Some amount ∧ Re.group m 2 = Some unit
    ∧ amount_shaped (replace comma period amount)
    ∧ (length sp ≤ 1)%nat ∧ forallb isspace sp = true
    ∧ tolower <$> unit ∈ [py "kb"; py "mb"; py "gb"; py "tb"].
Proof.
  intros Hs. apply search_from_run in Hs as (pre & t0 & t' & -> & Hrun).
  unfold size_pattern in Hrun. cbn [Re.expr Re.ignorecase] in Hrun.
  rewrite run_seq in Hrun.
  apply run_group_text in Hrun as (amount & t1 & g1 & -> & Hamount & _ & Hrun).
  rewrite run_seq in Hrun.
  apply run_traced in Hrun as (sp & t2 & g2 & -> & Hsp & Hg2 & Hrun).
  apply run_group_text in Hrun as (unit & t3 & g3 & -> & Hunit & Hg3 & [= -> Hg]).
  exists pre, amount, sp, unit, t'. split; [done|].
  split; [|split; [|split; [|split; [|split]]]].
  - unfold Re.group. rewrite <- Hg. rewrite lookup_insert_ne by done.
    rewrite (Hg3 1%nat) by done. rewrite (Hg2 1%nat) by done.
    apply lookup_insert_eq.
  - unfold Re.group. rewrite <- Hg. apply lookup_insert_eq.
  - destruct Hamount as (int & w & -> & Hint & (sep & frac & -> & Hsep & Hfrac)).
    apply lang_chars in Hint as (Hint & Hlo & _).
    apply lang_chars in Hsep as (Hsep & _ & Hhi).
    apply lang_chars in Hfrac as (Hfrac & _ & _).
    assert (∀ w, forallb (λ c, existsb (Re.item_matches c)
                   [Re.ItemCategory Re.CATEGORY_DIGIT]) w = forallb isdecimal w)
      as Hdigits.
    { intros w. apply forallb_eq. intros c. simpl. by rewrite orb_false_r. }
    rewrite Hdigits in Hint, Hfrac.
    exists int, frac. split; [by intros ->; simpl in Hlo; lia|].
    split; [done|]. split; [done|].
    unfold replace in *. rewrite !fmap_app.
    fold (replace comma period int) (replace comma period frac).
    rewrite !replace_decimal by done.
    destruct sep as [|c [|c' sep]]; [by left| |by simpl in Hhi; lia].
    right. simpl in Hsep. rewrite !orb_false_r, andb_true_r in Hsep.
    apply orb_true_iff in Hsep as [->%N.eqb_eq| ->%N.eqb_eq]; done.
  - by apply lang_chars in Hsp as (_ & _ & Hhi).
  - apply lang_chars in Hsp as (Hsp & _ & _). rewrite <- Hsp.
    apply forallb_eq. intros c. simpl. by rewrite orb_false_r.
  - destruct Hunit as [Hu|[Hu|[Hu|Hu]]]; apply lang_unit in Hu; rewrite Hu;
      apply (bool_decide_unpack _); by vm_compute.
Qed.
End CaptureFacts.

(** ** The matcher finds every word *)
Section CompleteFacts.
Context {U : Unicode}.
Variable flag_i : bool.

Implicit Types (t w : pystr) (g : gmap nat pystr) (k : Re.cont).

Lemma consuming_nonempty r : ∀ w,
  consuming r = true → Re.lang flag_i r w → w ≠ [].
Proof.
  induction r as [p|items|r1 IH1 r2 IH2|r1 IH1 r2 IH2|lo hi body IH|i body IH|];
    intros w; simpl; try done.
  - by intros _ (c & -> & _).
  - by intros _ (c & -> & _).
  - intros Hc (w1 & w2 & -> & Hw1 & Hw2) [-> ->]%app_eq_nil.
    apply orb_true_iff in Hc as [Hc|Hc]; [by eapply IH1|by eapply IH2].
  - intros [Hc1 Hc2]%andb_true_iff [Hw|Hw]; [by eapply IH1|by eapply IH2].
  - intros [Hlo Hc]%andb_true_iff (ws & -> & Hws & Hlen & _).
    apply bool_decide_eq_true in Hlo.
    destruct Hws as [|w ws Hw _]; simpl in *; [lia|].
    intros [-> _]%app_eq_nil. by eapply IH.
  - apply IH.
Qed.

Lemma rep_complete L body lo hi k t' :
  complete L body →
  (∀ g', is_Some (k t' g')) →
  ∀ ws fuel count g,
    Forall (λ w, L w ∧ w ≠ []) ws →
    (length ws ≤ fuel)%nat →
    (lo ≤ count + length ws)%nat →
    Re.within hi (count + length ws) →
    is_Some (Re.rep body lo hi k fuel count (concat ws ++ t') g).
Proof.
  intros Hbody Hk ws.
  induction ws as [|w ws IH]; intros fuel count g Hws Hfuel Hlo Hhi.
  - simpl in *. rewrite Nat.add_0_r in Hlo.
    assert (is_Some (if bool_decide (lo ≤ count)%nat then k t' g else None)) as Hleave.
    { by rewrite bool_decide_eq_true_2. }
    destruct fuel as [|fuel]; simpl; [done|].
    destruct (Re.below count hi); [|done].
    by destruct (body t' g _).
  - apply Forall_cons in Hws as [[Hw Hne] Hws].
    destruct fuel as [|fuel]; simpl in Hfuel; [lia|].
    cbn [concat Re.rep]. rewrite <- (assoc_L (++)).
    assert (Re.below count hi = true) as ->.
    { destruct hi as [h|]; simpl in *; [|done]. apply bool_decide_eq_true. lia. }
    destruct (body (w ++ concat ws ++ t') g _) as [res|] eqn:Hrun; [done|].
    apply eq_None_not_Some in Hrun. destruct Hrun. apply Hbody; [done|].
    intros g'. rewrite bool_decide_eq_true_2.
    + apply IH.
      * done.
      * lia.
      * rewrite Nat.add_succ_l, <- Nat.add_succ_r. exact Hlo.
      * rewrite Nat.add_succ_l, <- Nat.add_succ_r. exact Hhi.
    + rewrite !length_app. destruct w; [done|]. simpl. lia.
Qed.

Lemma run_complete r :
  productive r = true → complete (Re.lang flag_i r) (Re.run flag_i r).
Proof.
  induction r as [p|items|r1 IH1 r2 IH2|r1 IH1 r2 IH2|lo hi body IH|i body IH|];
    intros Hp w t' g k; simpl in *.
  - intros (c & -> & Hc) Hk. simpl. by rewrite Hc.
  - intros (c & -> & Hc) Hk. simpl. by rewrite Hc.
  - apply andb_true_iff in Hp as [Hp1 Hp2].
    intros (w1 & w2 & -> & Hw1 & Hw2) Hk. rewrite <- (assoc_L (++)).
    apply IH1; [done..|]. intros g'. by apply IH2.
  - apply andb_true_iff in Hp as [Hp1 Hp2].
    intros Hw Hk. destruct (Re.run _ r1 _ _ _) as [res|] eqn:Hrun; [done|].
    destruct Hw as [Hw|Hw]; [|by apply IH2].
    apply eq_None_not_Some in Hrun. destruct Hrun. by apply IH1.
  - apply andb_true_iff in Hp as [Hc Hp].
    intros (ws & -> & Hws & Hlo & Hhi) Hk.
    assert (Forall (λ w, Re.lang flag_i body w ∧ w ≠ []) ws) as Hne.
    { eapply Forall_impl; [exact Hws|]. intros w Hw. split; [done|].
      by eapply consuming_nonempty. }
    apply (rep_complete _ _ _ _ _ _ (IH Hp) Hk); [done| |done|done].
    rewrite length_app.
    transitivity (length (concat ws)); [|apply Nat.le_add_r]. clear -Hne.
    induction Hne as [|w ws [_ Hw] _ IHws]; simpl; [lia|].
    rewrite length_app. destruct w; [done|]. simpl. lia.
  - intros Hw Hk. apply IH; [done..|]. intros g'. apply Hk.
  - intros -> Hk. apply Hk.
Qed.

(** A subject with a word of the expression in it has a match. *)
Lemma search_from_complete r pre w post : ∀ pos,
  productive r = true → Re.lang flag_i r w →
  is_Some (Re.search_from flag_i r pos (pre ++ w ++ post)).
Proof.
  assert (Hunfold : ∀ pos t, Re.search_from flag_i r pos t =
            match Re.run flag_i r t ∅ (λ t' g, Some (t', g)) with
            | Some (t', g) =>
                Some {| Re.start := pos;
                        Re.stop := (pos + (length t - length t'))%nat;
                        Re.groups := g |}
            | None => match t with
                      | [] => None
                      | _ :: t' => Re.search_from flag_i r (S pos) t'
                      end
            end).
  { by intros pos [|c t]. }
  induction pre as [|c pre IH]; intros pos Hp Hw; rewrite Hunfold.
  - simpl app.
    destruct (run_complete r Hp w post ∅ (λ t' g, Some (t', g)) Hw) as [[t' g'] ->];
      done.
  - destruct (Re.run _ _ _ _ _) as [[t' g']|]; [done|]. simpl. by apply IH.
Qed.

Lemma lang_literal_intro s : Re.lang false (Re.literal s) s.
Proof.
  induction s as [|c s IH]; [done|]. simpl.
  exists [c], s. split; [done|]. split; [|done].
  exists c. split; [done|]. apply N.eqb_refl.
Qed.
End CompleteFacts.

(** ** Strings that are stored *)
Section StringFacts.
Context {U : Unicode}.

Implicit Types (t : pystr) (c : char).

Lemma replace_no_comma t : comma ∉ replace comma period t.
Proof.
  unfold replace. intros (c & Hc & _)%list_elem_of_fmap. revert Hc.
  destruct (N.eqb_spec c comma) as [->|Hne]; [done|]. by intros <-.
Qed.

Lemma lstrip_head t c : head (lstrip t) = Some c → isspace c = false.
Proof.
  induction t as [|c' t IH]; [done|]. simpl.
  destruct (isspace c') eqn:Hc'; [done|]. by intros [= <-].
Qed.

Lemma lstrip_suffix t : lstrip t `suffix_of` t.
Proof.
  induction t as [|c t IH]; [done|]. simpl.
  destruct (isspace c); [by apply suffix_cons_r|done].
Qed.

Lemma rstrip_last t c : last (rstrip t) = Some c → isspace c = false.
Proof. unfold rstrip. rewrite last_reverse. apply lstrip_head. Qed.

Lemma rstrip_prefix t : rstrip t `prefix_of` t.
Proof.
  unfold rstrip. rewrite <- (reverse_involutive t) at 2.
  apply suffix_prefix_reverse, lstrip_suffix.
Qed.

(** [strip] leaves no white space at either end. *)
Lemma strip_trimmed t : trimmed (strip t).
Proof.
  unfold strip. split; intros c Hc; [|by eapply rstrip_last].
  apply (lstrip_head t).
  destruct (rstrip_prefix (lstrip t)) as [k Hk]. rewrite Hk.
  by destruct (rstrip (lstrip t)).
Qed.

(** Turning commas into periods does not bring white space to an
    end. *)
Lemma replace_trimmed t : trimmed t → trimmed (replace comma period t).
Proof.
  assert (Hc : ∀ c, isspace c = false →
            isspace (if c =? comma then period else c) = false).
  { intros c Hc. destruct (c =? comma); [by vm_compute|done]. }
  unfold replace. intros [Hhead Hlast]. split; intros c.
  - destruct t as [|c' t]; [done|]. simpl. intros [= <-]. by apply Hc, Hhead.
  - rewrite fmap_last. intros (c' & Hc' & ->)%fmap_Some. by apply Hc, Hlast.
Qed.
End StringFacts.

(** ** What [parse_data] stores *)
Section StoredFacts.
Context {U : Unicode} {T : Transport} {B : TreeBuilder}.

Implicit Types (st : state) (html : pystr).

Lemma first_size_Some spans m :
  first_size spans = Some m →
  ∃ e, e ∈ spans ∧ Re.search size_pattern (Bs4.text e) = Some m.
Proof.
  induction spans as [|span spans IH]; [done|]. cbn [first_size].
  destruct (Re.search size_pattern (Bs4.text span)) as [m'|] eqn:Hs.
  - intros [= ->]. exists span. split; [left|done].
  - intros (e & He & Hm)%IH. exists e. split; [by right|done].
Qed.

Lemma lang_balance_intro num :
  num ≠ [] → forallb balance_char num = true →
  Re.lang false (Re.expr balance_pattern)
    (balance_open ++ num ++ balance_close).
Proof.
  intros Hne Hnum. unfold balance_pattern. cbn [Re.expr].
  exists balance_open, (num ++ balance_close).
  split; [done|]. split; [apply lang_literal_intro|].
  exists num, balance_close. split; [done|]. split; [|apply lang_literal_intro].
  exists ((λ c, [c]) <$> num). rewrite length_fmap.
  split; [|split; [|split; [by destruct num; simpl; [|lia]|done]]].
  - clear. induction num as [|c num IH]; [done|]. simpl. by f_equal.
  - clear Hne. induction num as [|c num IH]; [done|].
    simpl in Hnum. apply andb_true_iff in Hnum as [Hc Hnum].
    cbn [fmap list_fmap]. constructor; [|by apply IH].
    exists c. split; [done|]. unfold balance_char in Hc. simpl.
    by rewrite orb_false_r, orb_assoc.
Qed.

Lemma balance_of_spec html b :
  balance_of html = Some b →
  ∃ pre post, html = pre ++ balance_open ++ b ++ balance_close ++ post
    ∧ b ≠ [] ∧ forallb balance_char b = true.
Proof.
  unfold balance_of.
  destruct (Re.search balance_pattern html) as [m|] eqn:Hs; [|done].
  apply balance_match_spec in Hs as (pre & num & post & -> & Hg & Hne & Hnum).
  simpl. rewrite Hg. intros [= <-]. by exists pre, post.
Qed.

(** A call of [parse_data] that returns had a tree built, and stored
    the Reading of the text and the tree. *)
Lemma parse_data_returned html st :
  (parse_data html st).1 = Return () →
  ∃ soup, BeautifulSoup html = Return soup
    ∧ data (parse_data html st).2 = parsed html soup.
Proof.
  destruct (BeautifulSoup html) as [soup|e] eqn:Hsoup.
  - intros _. exists soup. by rewrite (parse_data_eq _ _ _ Hsoup).
  - by rewrite (parse_data_raises _ _ _ Hsoup).
Qed.

(** The two fields of the usage are there together. *)
Lemma usage_of_together soup :
  (usage_of soup).1 = None ↔ (usage_of soup).2 = None.
Proof.
  unfold usage_of. destruct (first_size _) as [m|] eqn:Hfirst; [|done].
  apply first_size_Some in Hfirst as (e & _ & Hs).
  apply size_match_spec in Hs as (? & ? & ? & ? & ? & _ & -> & -> & _).
  by split.
Qed.

(** X7: a balance that a call of [parse_data] that returns has
    stored stands in the raw text as it is stored, between the opening
    tag and the glyph with the closing tag; it is not empty and has
    digits, commas and periods only. *)
Theorem balance_stored_verbatim html st b :
  (parse_data html st).1 = Return () →
  data (parse_data html st).2 !! "balance"%string = Some (Some b) →
  ∃ pre post, html = pre ++ balance_open ++ b ++ balance_close ++ post
    ∧ b ≠ [] ∧ forallb balance_char b = true.
Proof.
  intros (soup & _ & ->)%parse_data_returned.
  rewrite parsed_balance. intros [= Hb]. by apply balance_of_spec.
Qed.

(** X8: [parse_data] returns with a balance stored exactly for the
    raw texts that a tree is built from and that have, somewhere, the
    opening tag, a run of one or more digits, commas and periods, and
    the glyph with the closing tag. *)
Theorem balance_stored_iff html st :
  ((parse_data html st).1 = Return ()
   ∧ ∃ b, data (parse_data html st).2 !! "balance"%string = Some (Some b))
  ↔ (∃ soup, BeautifulSoup html = Return soup)
    ∧ ∃ pre num post, html = pre ++ balance_open ++ num ++ balance_close ++ post
        ∧ num ≠ [] ∧ forallb balance_char num = true.
Proof.
  split.
  - intros [(soup & Hsoup & ->)%parse_data_returned (b & Hb)].
    split; [by exists soup|]. rewrite parsed_balance in Hb.
    injection Hb as (pre & post & ?)%balance_of_spec. by exists pre, b, post.
  - intros [(soup & Hsoup) (pre & num & post & -> & Hne & Hnum)].
    rewrite (parse_data_eq _ _ _ Hsoup). split; [done|].
    cbn [snd data set_data add_log]. rewrite parsed_balance. unfold balance_of.
    destruct (search_from_complete false (Re.expr balance_pattern) pre
                (balance_open ++ num ++ balance_close) post 0)
      as [m Hs]; [by vm_compute|by apply lang_balance_intro|].
    rewrite <- !(assoc_L (++)) in Hs.
    change (Re.search_from false (Re.expr balance_pattern) 0) with
      (Re.search balance_pattern) in Hs.
    rewrite Hs. simpl.
    apply balance_match_spec in Hs as (_ & b & _ & _ & -> & _). by exists b.
Qed.

(** X9: a call of [parse_data] that returns has stored the amount
    and the unit of the usage together or not at all. *)
Theorem usage_stored_together html st :
  (parse_data html st).1 = Return () →
  data (parse_data html st).2 !! "data_usage"%string = Some None
  ↔ data (parse_data html st).2 !! "data_usage_unit"%string = Some None.
Proof.
  intros (soup & _ & ->)%parse_data_returned.
  rewrite parsed_data_usage, parsed_data_usage_unit.
  destruct (usage_of_together soup) as [H1 H2].
  split; intros [= Hnone]; f_equal; auto.
Qed.

(** X10: an amount of usage that a call of [parse_data] that returns
    has stored is digits, then nothing or one period, then digits, with
    a digit first: the comma of the page is a period in it. *)
Theorem usage_amount_shaped html st a :
  (parse_data html st).1 = Return () →
  data (parse_data html st).2 !! "data_usage"%string = Some (Some a) →
  amount_shaped a.
Proof.
  intros (soup & _ & ->)%parse_data_returned.
  rewrite parsed_data_usage. unfold usage_of.
  destruct (first_size _) as [m|] eqn:Hfirst; [|done].
  apply first_size_Some in Hfirst as (e & _ & Hs).
  apply size_match_spec in Hs as (? & amount & ? & ? & ? & _ & -> & _ & Ha & _).
  by intros [= <-].
Qed.

(** X11: a unit of usage that a call of [parse_data] that returns
    has stored is KB, MB, GB or TB in some case, written as in the
    text of a span of class [red] of the tree built from the page. *)
Theorem usage_unit_known html st u :
  (parse_data html st).1 = Return () →
  data (parse_data html st).2 !! "data_usage_unit"%string = Some (Some u) →
  tolower <$> u ∈ [py "kb"; py "mb"; py "gb"; py "tb"]
  ∧ ∃ soup e pre post,
      BeautifulSoup html = Return soup
      ∧ e ∈ Bs4.find_all soup (py "span") (py "red")
      ∧ Bs4.text e = pre ++ u ++ post.
Proof.
  intros (soup & Hsoup & ->)%parse_data_returned.
  rewrite parsed_data_usage_unit. unfold usage_of.
  destruct (first_size _) as [m|] eqn:Hfirst; [|done].
  apply first_size_Some in Hfirst as (e & He & Hs).
  apply size_match_spec in Hs
    as (pre & amount & sp & unit & post & Htext & _ & -> & _ & _ & _ & Hu).
  intros [= <-]. split; [done|].
  exists soup, e, (pre ++ amount ++ sp), post. split; [done|]. split; [done|].
  by rewrite Htext, <- !(assoc_L (++)).
Qed.

(** X12: no amount that a call of [parse_data] that returns has
    stored, of usage or of remaining data, has a comma. *)
Theorem amounts_have_no_comma html st key a :
  (parse_data html st).1 = Return () →
  key = "data_usage"%string ∨ key = "remaining_data"%string →
  data (parse_data html st).2 !! key = Some (Some a) →
  comma ∉ a.
Proof.
  intros (soup & _ & ->)%parse_data_returned [-> | ->].
  - rewrite parsed_data_usage. unfold usage_of.
    destruct (first_size _) as [m|]; [|done]. simpl.
    destruct (Re.group m 1) as [g1|]; [|done]. intros [= <-].
    apply replace_no_comma.
  - rewrite parsed_remaining_data. unfold remaining_of.
    destruct (Bs4.find _ _ _) as [e|]; [|done]. intros [= <-].
    apply replace_no_comma.
Qed.

(** X13: a call of [parse_data] that returns has stored the remaining
    amount and its unit without white space at either end. *)
Theorem remaining_stored_trimmed html st key v :
  (parse_data html st).1 = Return () →
  key = "remaining_data"%string ∨ key = "remaining_data_unit"%string →
  data (parse_data html st).2 !! key = Some (Some v) →
  trimmed v.
Proof.
  intros (soup & _ & ->)%parse_data_returned [-> | ->].
  - rewrite parsed_remaining_data. unfold remaining_of.
    destruct (Bs4.find _ _ _) as [e|]; [|done]. intros [= <-].
    apply replace_trimmed, strip_trimmed.
  - rewrite parsed_remaining_data_unit. unfold remaining_unit_of.
    destruct (Bs4.find _ _ _) as [e|]; [|done]. intros [= <-].
    apply strip_trimmed.
Qed.
End StoredFacts.

(** ** The life of a coordinator and what the entities show *)
Section LifeFacts.
Context {U : Unicode} {T : Transport} {B : TreeBuilder}.

Implicit Types (st : state) (html : pystr).

Lemma reachable_data st :
  reachable st → data st = ∅ ∨ ∃ html soup, data st = parsed html soup.
Proof.
  induction 1 as [username password session|st _ IH]; [by left|].
  destruct (cycle_data st) as [->|(html & soup & _ & _ & _ & ->)]; [done|].
  right. by exists html, soup.
Qed.

(** X14: the cache of a coordinator is, all its life, the empty dict
    of [__init__] or a dict with all five keys: no cycle leaves some
    of the fields of a Reading in it. *)
Theorem cache_empty_or_whole st :
  reachable st →
  data st = ∅
  ∨ dom (data st) =
      {[ "balance"; "data_usage"; "data_usage_unit";
         "remaining_data"; "remaining_data_unit" ]}%string.
Proof.
  intros [->|(html & soup & ->)]%reachable_data; [by left|]. right.
  unfold parsed. rewrite !dom_insert_L, dom_singleton_L. set_solver.
Qed.

(** X15: all its life, the usage entity of a coordinator has a state
    exactly when it has a unit of measurement. *)
Theorem usage_entity_consistent st :
  reachable st →
  IliadDataUsageSensor.state st = None
  ↔ IliadDataUsageSensor.unit_of_measurement st = None.
Proof.
  unfold IliadDataUsageSensor.state, IliadDataUsageSensor.unit_of_measurement,
    dict_get.
  intros [->|(html & soup & ->)]%reachable_data; [done|].
  rewrite parsed_data_usage, parsed_data_usage_unit. apply usage_of_together.
Qed.

(** X16: through a cycle that does not fetch a page, or fetches the
    empty page, every entity shows what it showed before, also when the
    cycle raises. *)
Theorem entities_keep_last_reading st :
  (∀ html, fetched_page st html → html = []) →
  let st' := (_async_update_data st).2 in
  IliadBalanceSensor.state st' = IliadBalanceSensor.state st
  ∧ IliadDataUsageSensor.state st' = IliadDataUsageSensor.state st
  ∧ IliadDataUsageSensor.unit_of_measurement st'
    = IliadDataUsageSensor.unit_of_measurement st
  ∧ IliadRemainingDataSensor.state st' = IliadRemainingDataSensor.state st
  ∧ IliadRemainingDataSensor.unit_of_measurement st'
    = IliadRemainingDataSensor.unit_of_measurement st.
Proof.
  intros Hno st'.
  assert (data st' = data st) as Hdata.
  { destruct (cycle_data st) as [Hsame|(html & soup & Hne & Hpage & _)]; [done|].
    by destruct Hne; apply Hno. }
  unfold IliadBalanceSensor.state, IliadDataUsageSensor.state,
    IliadDataUsageSensor.unit_of_measurement, IliadRemainingDataSensor.state,
    IliadRemainingDataSensor.unit_of_measurement.
  by rewrite Hdata.
Qed.
End LifeFacts.

(** ** The further properties on the pages and servers of the examples *)

Lemma page_refused_keeps_cache_witness :
  let st := cached failing false in
  (login_status st = Some 200%Z ∧ page_status st = Some 503%Z ∧ 503%Z ≠ 200%Z)
  ∧ ∃ st', _async_update_data (U:=latin1) (B:=example_builder) st
           = (Return old_reading, st')
      ∧ data st' = old_reading
      ∧ log st' = [page_failed 503]
      ∧ sent st' = [login_request st; page_request].
Proof.
  split; [by repeat split|].
  apply (page_refused_keeps_cache (U:=latin1) (B:=example_builder)
           (cached failing false) 503); [reflexivity|reflexivity|lia].
Defined.

Lemma other_exception_propagates_witness :
  let st := cached interrupted false in
  (isinstance_Exception KeyboardInterrupt = false
   ∧ raised_during_fetch st KeyboardInterrupt)
  ∧ ∃ st', fetch_data st = (Raise KeyboardInterrupt, st')
      ∧ _async_update_data (U:=latin1) (B:=example_builder) st
        = (Raise KeyboardInterrupt, st')
      ∧ data st' = old_reading
      ∧ log st' = [].
Proof.
  split; [by split; vm_compute|].
  apply (other_exception_propagates (U:=latin1) (B:=example_builder)
           (cached interrupted false) KeyboardInterrupt);
    [reflexivity|by vm_compute].
Defined.

Lemma balance_stored_verbatim_witness :
  let st := fresh (serving page_glyph) false in
  ((parse_data (U:=latin1) (B:=example_builder) page_glyph st).1 = Return ()
   ∧ data (parse_data (U:=latin1) (B:=example_builder) page_glyph st).2
       !! "balance"%string = Some (Some (py "12,34")))
  ∧ ∃ pre post,
      page_glyph = pre ++ balance_open ++ py "12,34" ++ balance_close ++ post
      ∧ py "12,34" ≠ [] ∧ forallb (balance_char (U:=latin1)) (py "12,34") = true.
Proof.
  split; [by split; vm_compute|].
  apply (balance_stored_verbatim (U:=latin1) (B:=example_builder) page_glyph
           (fresh (serving page_glyph) false) (py "12,34"));
    [reflexivity|by vm_compute].
Defined.

Lemma usage_stored_together_witness :
  let st := fresh (serving page_usage) false in
  (parse_data (U:=latin1) (B:=example_builder) page_usage st).1 = Return ()
  ∧ (data (parse_data (U:=latin1) (B:=example_builder) page_usage st).2
       !! "data_usage"%string = Some None
     ↔ data (parse_data (U:=latin1) (B:=example_builder) page_usage st).2
         !! "data_usage_unit"%string = Some None).
Proof.
  split; [reflexivity|].
  apply (usage_stored_together (U:=latin1) (B:=example_builder) page_usage
           (fresh (serving page_usage) false)).
  reflexivity.
Defined.

Lemma usage_amount_shaped_witness :
  let st := fresh (serving page_usage) false in
  ((parse_data (U:=latin1) (B:=example_builder) page_usage st).1 = Return ()
   ∧ data (parse_data (U:=latin1) (B:=example_builder) page_usage st).2
       !! "data_usage"%string = Some (Some (py "5")))
  ∧ amount_shaped (U:=latin1) (py "5").
Proof.
  split; [by split; vm_compute|].
  apply (usage_amount_shaped (U:=latin1) (B:=example_builder) page_usage
           (fresh (serving page_usage) false) (py "5"));
    [reflexivity|by vm_compute].
Defined.

Lemma usage_unit_known_witness :
  let st := fresh (serving page_usage) false in
  ((parse_data (U:=latin1) (B:=example_builder) page_usage st).1 = Return ()
   ∧ data (parse_data (U:=latin1) (B:=example_builder) page_usage st).2
       !! "data_usage_unit"%string = Some (Some (py "GB")))
  ∧ tolower (U:=latin1) <$> py "GB" ∈ [py "kb"; py "mb"; py "gb"; py "tb"]
  ∧ ∃ soup e pre post,
      BeautifulSoup (B:=example_builder) page_usage = Return soup
      ∧ e ∈ Bs4.find_all soup (py "span") (py "red")
      ∧ Bs4.text e = pre ++ py "GB" ++ post.
Proof.
  split; [by split; vm_compute|].
  apply (usage_unit_known (U:=latin1) (B:=example_builder) page_usage
           (fresh (serving page_usage) false) (py "GB"));
    [reflexivity|by vm_compute].
Defined.

Lemma amounts_have_no_comma_witness :
  let st := fresh (serving page_remaining) false in
  ((parse_data (U:=latin1) (B:=example_builder) page_remaining st).1 = Return ()
   ∧ data (parse_data (U:=latin1) (B:=example_builder) page_remaining st).2
       !! "remaining_data"%string = Some (Some (py "3.5")))
  ∧ comma ∉ py "3.5".
Proof.
  split; [by split; vm_compute|].
  apply (amounts_have_no_comma (U:=latin1) (B:=example_builder) page_remaining
           (fresh (serving page_remaining) false) "remaining_data" (py "3.5"));
    [reflexivity|by right|by vm_compute].
Defined.

Lemma remaining_stored_trimmed_witness :
  let st := fresh (serving page_remaining) false in
  ((parse_data (U:=latin1) (B:=example_builder) page_remaining st).1 = Return ()
   ∧ data (parse_data (U:=latin1) (B:=example_builder) page_remaining st).2
       !! "remaining_data_unit"%string = Some (Some (py "GB")))
  ∧ trimmed (U:=latin1) (py "GB").
Proof.
  split; [by split; vm_compute|].
  apply (remaining_stored_trimmed (U:=latin1) (B:=example_builder) page_remaining
           (fresh (serving page_remaining) false) "remaining_data_unit" (py "GB"));
    [reflexivity|by right|by vm_compute].
Defined.

Lemma cache_empty_or_whole_witness :
  let st := (_async_update_data (U:=latin1) (B:=example_builder)
               (fresh (serving page_usage) false)).2 in
  reachable (U:=latin1) (B:=example_builder) st
  ∧ (data st = ∅
     ∨ dom (data st) =
         {[ "balance"; "data_usage"; "data_usage_unit";
            "remaining_data"; "remaining_data_unit" ]}%string).
Proof.
  assert (reachable (U:=latin1) (B:=example_builder)
            (_async_update_data (U:=latin1) (B:=example_builder)
               (fresh (serving page_usage) false)).2) as Hreach.
  { apply reachable_cycle, reachable_init. }
  split; [exact Hreach|].
  exact (cache_empty_or_whole (U:=latin1) (B:=example_builder) _ Hreach).
Defined.

Lemma usage_entity_consistent_witness :
  let st := (_async_update_data (U:=latin1) (B:=example_builder)
               (fresh (serving page_usage) false)).2 in
  reachable (U:=latin1) (B:=example_builder) st
  ∧ (IliadDataUsageSensor.state st = None
     ↔ IliadDataUsageSensor.unit_of_measurement st = None).
Proof.
  assert (reachable (U:=latin1) (B:=example_builder)
            (_async_update_data (U:=latin1) (B:=example_builder)
               (fresh (serving page_usage) false)).2) as Hreach.
  { apply reachable_cycle, reachable_init. }
  split; [exact Hreach|].
  exact (usage_entity_consistent (U:=latin1) (B:=example_builder) _ Hreach).
Defined.

Lemma entities_keep_last_reading_witness :
  let st := cached refusing false in
  let st' := (_async_update_data (U:=latin1) (B:=example_builder) st).2 in
  (∀ html, fetched_page st html → html = [])
  ∧ IliadBalanceSensor.state st = Some (py "9.99")
  ∧ IliadBalanceSensor.state st' = IliadBalanceSensor.state st
  ∧ IliadDataUsageSensor.state st' = IliadDataUsageSensor.state st
  ∧ IliadDataUsageSensor.unit_of_measurement st'
    = IliadDataUsageSensor.unit_of_measurement st
  ∧ IliadRemainingDataSensor.state st' = IliadRemainingDataSensor.state st
  ∧ IliadRemainingDataSensor.unit_of_measurement st'
    = IliadRemainingDataSensor.unit_of_measurement st.
Proof.
  assert (∀ html, fetched_page (cached refusing false) html → html = [])
    as Hno by (by intros html [Hstatus _]).
  split; [exact Hno|]. split; [by vm_compute|].
  exact (entities_keep_last_reading (U:=latin1) (B:=example_builder)
           (cached refusing false) Hno).
Defined.

(** ** When a usage is found *)
Section UsageFacts.
Context {U : Unicode} {T : Transport} {B : TreeBuilder}.

Implicit Types (st : state) (html : pystr).

Lemma lang_chars_intro flag lo hi items w :
  forallb (λ c, existsb (Re.item_matches c) items) w = true →
  (lo ≤ length w)%nat → Re.within hi (length w) →
  Re.lang flag (Re.MaxRepeat lo hi (Re.In items)) w.
Proof.
  intros Hw Hlo Hhi. exists ((λ c, [c]) <$> w). rewrite length_fmap.
  split; [|split; [|done]].
  - clear. induction w as [|c w IH]; [done|]. simpl. by f_equal.
  - clear Hlo Hhi. induction w as [|c w IH]; [done|].
    simpl in Hw. apply andb_true_iff in Hw as [Hc Hw].
    cbn [fmap list_fmap]. constructor; [|by apply IH]. by exists c.
Qed.

Lemma digits_items w :
  forallb (λ c, existsb (Re.item_matches c) [Re.ItemCategory Re.CATEGORY_DIGIT]) w
  = forallb isdecimal w.
Proof. apply forallb_eq. intros c. simpl. by rewrite orb_false_r. Qed.

Lemma spaces_items w :
  forallb (λ c, existsb (Re.item_matches c) [Re.ItemCategory Re.CATEGORY_SPACE]) w
  = forallb isspace w.
Proof. apply forallb_eq. intros c. simpl. by rewrite orb_false_r. Qed.

Lemma lang_unit_intro unit a b :
  tolower <$> unit = [tolower a; tolower b] →
  Re.lang true (Re.literal [a; b]) unit.
Proof.
  destruct unit as [|c1 [|c2 [|c3 unit]]]; try done. intros [= H1 H2].
  exists [c1], [c2]. split; [done|]. split; [exists c1; split; [done|]|].
  - simpl. by apply N.eqb_eq.
  - exists [c2], []. split; [done|]. split; [|done].
    exists c2. split; [done|]. simpl. by apply N.eqb_eq.
Qed.

(** The words of the size pattern are the sizes. *)
Lemma lang_size amount sp unit :
  size_text amount sp unit →
  Re.lang true (Re.expr size_pattern) (amount ++ sp ++ unit).
Proof.
  intros ((int & sep & frac & -> & Hne & Hint & Hfrac & Hsep) & Hlen & Hsp & Hunit).
  unfold size_pattern. cbn [Re.expr].
  exists (int ++ sep ++ frac), (sp ++ unit). split; [done|]. split.
  - exists int, (sep ++ frac). split; [done|]. split.
    { apply lang_chars_intro; [by rewrite digits_items| |done].
      destruct int; [done|]. simpl. lia. }
    exists sep, frac. split; [done|]. split.
    + apply lang_chars_intro; [|lia|].
      * destruct Hsep as [-> | [-> | ->]]; by vm_compute.
      * destruct Hsep as [-> | [-> | ->]]; simpl; lia.
    + apply lang_chars_intro; [by rewrite digits_items|lia|done].
  - exists sp, unit. split; [done|]. split.
    + apply lang_chars_intro; [by rewrite spaces_items|lia|done].
    + cbn [Re.lang].
      apply list_elem_of_In in Hunit. simpl in Hunit.
      destruct Hunit as [Hu|[Hu|[Hu|[Hu|Hu]]]]; [| | | |done].
      * left. by apply lang_unit_intro.
      * right. left. by apply lang_unit_intro.
      * right. right. left. by apply lang_unit_intro.
      * right. right. right. by apply lang_unit_intro.
Qed.

Lemma size_match_text t m :
  Re.search size_pattern t = Some m →
  ∃ pre amount sp unit post,
    t = pre ++ amount ++ sp ++ unit ++ post ∧ size_text amount sp unit.
Proof.
  intros Hs. apply search_from_sound in Hs as (pre & w & post & -> & Hw).
  unfold size_pattern in Hw. cbn [Re.expr Re.ignorecase] in Hw.
  destruct Hw as (amount & w' & -> & Hamount & (sp & unit & -> & Hsp & Hunit)).
  exists pre, amount, sp, unit, post. split; [by rewrite <- !(assoc_L (++))|].
  destruct Hamount as (int & w & -> & Hint & (sep & frac & -> & Hsep & Hfrac)).
  apply lang_chars in Hint as (Hint & Hlo & _).
  apply lang_chars in Hsep as (Hsep & _ & Hhi).
  apply lang_chars in Hfrac as (Hfrac & _ & _).
  apply lang_chars in Hsp as (Hsp & _ & Hsphi).
  rewrite digits_items in Hint, Hfrac. rewrite spaces_items in Hsp.
  split; [|split; [done|split; [done|]]].
  - exists int, sep, frac. split; [done|].
    split; [by intros ->; simpl in Hlo; lia|]. split; [done|]. split; [done|].
    destruct sep as [|c [|c' sep]]; [by left| |by simpl in Hhi; lia].
    right. simpl in Hsep. rewrite !orb_false_r, andb_true_r in Hsep.
    apply orb_true_iff in Hsep as [->%N.eqb_eq| ->%N.eqb_eq]; auto.
  - destruct Hunit as [Hu|[Hu|[Hu|Hu]]]; apply lang_unit in Hu; rewrite Hu;
      apply (bool_decide_unpack _); by vm_compute.
Qed.

Lemma first_size_None spans :
  first_size spans = None →
  ∀ e, e ∈ spans → Re.search size_pattern (Bs4.text e) = None.
Proof.
  induction spans as [|span spans IH]; [by intros _ e ?%elem_of_nil|].
  cbn [first_size].
  destruct (Re.search size_pattern (Bs4.text span)) as [m|] eqn:Hs; [done|].
  intros Hnone e [->|He]%elem_of_cons; [done|by apply IH].
Qed.

(** X18: [parse_data] returns with a usage stored exactly for the
    pages that a tree is built from in which a span of class [red] has
    a text with a size in it: digits, at most one period or comma,
    digits, at most one white space and KB, MB, GB or TB in some
    case. *)
Theorem usage_stored_iff html st :
  ((parse_data html st).1 = Return ()
   ∧ ∃ a, data (parse_data html st).2 !! "data_usage"%string = Some (Some a))
  ↔ ∃ soup e pre amount sp unit post,
      BeautifulSoup html = Return soup
      ∧ e ∈ Bs4.find_all soup (py "span") (py "red")
      ∧ Bs4.text e = pre ++ amount ++ sp ++ unit ++ post
      ∧ size_text amount sp unit.
Proof.
  split.
  - intros [(soup & Hsoup & ->)%parse_data_returned (a & Ha)].
    rewrite parsed_data_usage in Ha. unfold usage_of in Ha.
    destruct (first_size _) as [m|] eqn:Hfirst; [|done].
    apply first_size_Some in Hfirst as (e & He & Hs).
    apply size_match_text in Hs as (pre & amount & sp & unit & post & ? & ?).
    by exists soup, e, pre, amount, sp, unit, post.
  - intros (soup & e & pre & amount & sp & unit & post
            & Hsoup & He & Htext & Hsize).
    rewrite (parse_data_eq _ _ _ Hsoup). split; [done|].
    cbn [snd data set_data add_log]. rewrite parsed_data_usage. unfold usage_of.
    destruct (first_size _) as [m|] eqn:Hfirst.
    + apply first_size_Some in Hfirst as (e' & _ & Hs).
      apply size_match_spec in Hs as (? & ? & ? & ? & ? & _ & -> & _).
      by eexists.
    + apply (first_size_None _ Hfirst) in He.
      destruct (search_from_complete true (Re.expr size_pattern) pre
                  (amount ++ sp ++ unit) post 0)
        as [m Hs]; [by vm_compute|by apply lang_size|].
      rewrite <- !(assoc_L (++)), <- Htext in Hs.
      change (Re.search_from true (Re.expr size_pattern) 0) with
        (Re.search size_pattern) in Hs.
      congruence.
Qed.
End UsageFacts.
